(** * litgpt/generate/adapter.py: adapter inference script

    A shallow embedding of [main] (and its nested [save_inference_results])
    from [src/litgpt/generate/adapter.py], with the properties of the
    prompt-template dispatch, the output truncation, the generation loop and
    the result persistence.

    Definitions:
    - [PyStr]: the Python [str] operations the script uses
      ([startswith], [find], [in], [split], [''.join]);
    - [Adapter]: the script itself, over an interface of the external
      libraries (Lightning, litgpt, torch, pandas), in a state-and-exception
      monad that logs every external call, with its answer, in program order;
    - [Stub]: a small implementation of that interface, to run the script on
      concrete inputs;
    - [ParsingStub]: the same, with a [read_csv] that parses the cells of
      the dataset file.

    Properties:
    - [PyStrFacts]: [find] and [split];
    - [Truncation], [TruncationMore]: line 137;
    - [Run]: the monad and the phases of [main];
    - [Pipeline]: precision and quantization, set-up order, data flow from
      the dataset to the CSV, failures (X1-X15);
    - [Main]: [main] as a whole (C1-C10);
    - [Examples], [PipelineExamples]: runs against the stubs. *)

From Equations Require Import Equations.
From Equations.Prop Require Import Logic.
From stdpp Require Import base option list gmap strings.
From Stdlib Require Import ZArith Lia Ascii.

(** ** Python strings *)

Module PyStr.

Section Text.
(** A Python [str] is a finite sequence of characters; the operations below
    only compare characters, so they are written over any character type
    with decidable equality. *)
Context {A : Type} `{EqDecision A}.

(** [s.startswith(p)] *)
Definition startswith (s p : list A) : bool := bool_decide (p `prefix_of` s).

(** [s.find(sub)]: the lowest index at which [sub] occurs in [s], [None]
    standing for Python's [-1]. *)
Fixpoint find (sub s : list A) : option nat :=
  if startswith s sub then Some 0
  else match s with
       | [] => None
       | _ :: s' => S <$> find sub s'
       end.

(** [sub in s] *)
Definition contains (sub s : list A) : bool :=
  if find sub s is Some _ then true else false.

(** [s.split(sep)] for a non-empty separator [c :: sep'], as CPython computes
    it: look for the next occurrence of the separator from the current
    position, cut the segment before it, skip the separator, repeat; the
    remainder after the last occurrence is the last segment. *)
Equations? split_nonempty (c : A) (sep' s : list A) : list (list A)
  by wf (length s) lt :=
split_nonempty c sep' s with inspect (find (c :: sep') s) := {
  | exist _ (Some i) F => take i s :: split_nonempty c sep' (drop (i + S (length sep')) s)
  | exist _ None _ => [s] }.
Proof.
  destruct s as [|a s]; [discriminate F|].
  rewrite length_drop. simpl. lia.
Qed.

(** [s.split(sep)]; [None] stands for the [ValueError] ("empty separator")
    that Python raises when [sep] is empty. *)
Definition split (s sep : list A) : option (list (list A)) :=
  match sep with
  | [] => None
  | c :: sep' => Some (split_nonempty c sep' s)
  end.

(** [''.join(parts)] *)
Definition join_empty (parts : list (list A)) : list A := concat parts.

(** [sub] occurs in [s] at some position. *)
Definition occurs (sub s : list A) : Prop :=
  ∃ pre post, s = pre ++ sub ++ post.

(** [s = pre ++ sub ++ post] is the leftmost occurrence of [sub] in [s]. *)
Definition leftmost (sub s pre post : list A) : Prop :=
  s = pre ++ sub ++ post ∧
  ∀ pre' post', s = pre' ++ sub ++ post' → length pre ≤ length pre'.

(** [sub] occurs in [s] exactly once. *)
Definition occurs_once (sub s pre post : list A) : Prop :=
  s = pre ++ sub ++ post ∧
  ∀ pre' post', s = pre' ++ sub ++ post' → pre' = pre.

End Text.

(** Characters and literals.  The script's own literals are ASCII. *)
Abbreviation str := (list ascii).
Definition lit (s : string) : str := String.list_ascii_of_string s.

End PyStr.

(** ** The script *)

Module Adapter.
Import PyStr.

Notation "« s »" := (lit s) (format "« s »").

(** *** Values of the external libraries

    The script only passes these objects around; what they are is the
    business of Lightning, litgpt, torch and pathlib. *)
Class Objects := {
  Path : Type;            (* pathlib.Path *)
  Path_of : str → Path;   (* Path(s) *)
  path_div : Path → str → Path;  (* p / name *)
  Float : Type;           (* Python float *)
  Yaml : Type;            (* a loaded YAML configuration *)
  Plugin : Type;          (* BitsandbytesPrecision *)
  Fabric : Type;          (* lightning.Fabric *)
  Device : Type;          (* torch.device *)
  fabric_device : Fabric → Device;
  ModelConfig : Type;     (* litgpt.adapter.Config *)
  Tokenizer : Type;       (* litgpt.Tokenizer *)
  eos_id : Tokenizer → Z;
  Model : Type;           (* litgpt.adapter.GPT *)
  Checkpoint : Type;      (* a lazily loaded state dict *)
  Tensor : Type;          (* torch.Tensor of token ids *)
}.

(** [torch.float16], [torch.bfloat16], [torch.float32] *)
Inductive dtype := float16 | bfloat16 | float32.

(** A pandas data frame as the script sees it: named columns of text cells,
    in column order. *)
Abbreviation frame := (list (str * list str)).

Inductive exn :=
| KeyError (key : str)
| ValueError (msg : str)
| LibraryError (what : str).

(** The answer of a step that may raise. *)
Inductive result (A : Type) :=
| Ok (a : A)
| Err (e : exn).
Arguments Ok {A} a.
Arguments Err {A} e.

Section Script.
Context `{Objects}.

(** What the script prints. *)
Inductive printed :=
| PStr (s : str)
| PPath (p : Path)
| PLoading (checkpoint_path : Path) (config : ModelConfig)
| PElapsed (what : str) (t1 t0 : Float)
| PCheckpoint (c : Checkpoint).

(** *** Calls into the external libraries

    One constructor per call site's callee, carrying the arguments the script
    passes; the index is the type of the value returned. *)
Inductive call : Type → Type :=
| ResolveOutputFile (output_file : str) : call (option str)
| Print (items : list printed) : call unit
| FabricPrint (fabric : Fabric) (items : list printed) (to_stderr : bool) : call unit
| LoadConfig (path : str) : call Yaml
| GetModelPath (model_name : str) (config : Yaml) : call str
| GetDefaultSupportedPrecision (training : bool) : call str
| BitsandbytesPrecision (mode : str) (dt : dtype) : call Plugin
| NewFabric (devices : list Z) (precision : option str) (plugins : option Plugin) : call Fabric
| FabricLaunch (fabric : Fabric) : call unit
| CheckValidCheckpointDir (checkpoint_dir : Path) : call unit
| ConfigFromFile (path : Path) : call ModelConfig
| NewTokenizer (checkpoint_dir : Path) : call Tokenizer
| PerfCounter : call Float
| NewGPT (fabric : Fabric) (empty_init : bool) (config : ModelConfig) : call Model
| SetMaxSeqLength (fabric : Fabric) (model : Model) (n : Z) : call unit
| SetKvCache (fabric : Fabric) (model : Model) (batch_size : Z) : call unit
| ModelEval (model : Model) : call unit
| LazyLoad (path : Path) : call Checkpoint
| CheckpointGet (c : Checkpoint) (key : str) (default : Checkpoint) : call Checkpoint
| CheckpointUpdate (c other : Checkpoint) : call unit
| LoadStateDict (model : Model) (c : Checkpoint) : call unit
| FabricSetup (fabric : Fabric) (model : Model) : call Model
| SeedEverything (seed : Z) : call unit
| GetDatasetInfo (name : str) (config : Yaml) : call (str * str)
| ReadCsv (path : str) : call frame
| ApplyPromptTemplate (text model_name : str) (add_sys_prefix : bool)
    (finetune_dataname : str) : call str
| Encode (tokenizer : Tokenizer) (text : str) (device : Device) : call Tensor
| Generate (model : Model) (encoded : Tensor) (max_returned_tokens : Z)
    (temperature : Float) (eos : Z) : call Tensor
| Decode (tokenizer : Tokenizer) (y : Tensor) : call str
| ToCsv (df : frame) (path : str) (index : bool) : call unit.

(** A call together with what it answered: a value, or an exception. *)
Inductive event :=
| Ev {T : Type} (c : call T) (r : result T).

(** The external libraries: a state of the outside world (files, devices,
    random generator, clock) and the effect of every call on it. *)
Class Library := {
  World : Type;
  handle : ∀ {T}, call T → World → result T * World;
}.
Context `{Library}.

(** *** The monad of the script

    A computation runs in the state of the world and of the log of calls made
    so far (oldest first), and returns, raises, or exits the process. *)
Inductive outcome (A : Type) :=
| Returned (a : A)
| Raised (e : exn)
| Exited (status : Z).
Global Arguments Returned {A} a.
Global Arguments Raised {A} e.
Global Arguments Exited {A} status.

Record state := State { world : World; log : list event }.

Definition M (A : Type) : Type := state → outcome A * state.

Definition ret {A} (a : A) : M A := λ st, (Returned a, st).

Definition bind {A B} (m : M A) (f : A → M B) : M B :=
  λ st, match m st with
        | (Returned a, st') => f a st'
        | (Raised e, st') => (Raised e, st')
        | (Exited c, st') => (Exited c, st')
        end.

Definition raise {A} (e : exn) : M A := λ st, (Raised e, st).

(** [exit(status)] *)
Definition exit {A} (status : Z) : M A := λ st, (Exited status, st).

(** Perform an external call: the world moves on, the call and its answer are
    appended to the log, and an exception of the library propagates. *)
Definition ext {T} (c : call T) : M T :=
  λ st, let '(r, w) := handle c (world st) in
        let st' := State w (log st ++ [Ev c r]) in
        match r with
        | Ok v => (Returned v, st')
        | Err e => (Raised e, st')
        end.

(** A pure step that may raise. *)
Definition lift {A} (r : result A) : M A :=
  match r with Ok a => ret a | Err e => raise e end.

(** [for x in xs: body], threading the variables the body assigns. *)
Fixpoint for_each {X V} (xs : list X) (body : X → V → M V) (vars : V) : M V :=
  match xs with
  | [] => ret vars
  | x :: xs' => bind (body x vars) (for_each xs' body)
  end.

Notation "x <- m ;; k" := (bind m (λ x, k))
  (at level 100, m at next level, right associativity, only parsing).
Notation "m ;; k" := (bind m (λ _, k))
  (at level 100, right associativity, only parsing).

(** *** Small Python idioms *)

(** [d[k]] on a dict with string keys. *)
Definition getitem {V} (d : gmap str V) (k : str) : result V :=
  match d !! k with
  | Some v => Ok v
  | None => Err (KeyError k)
  end.

(** Truth value of an optional string: [None] and [''] are false. *)
Definition truthy (o : option str) : bool :=
  match o with
  | Some (_ :: _) => true
  | _ => false
  end.

(** [str(x)] of a string. *)
Definition py_str (x : str) : str := x.

(** [frame[column_name]] *)
Fixpoint column (df : frame) (column_name : str) : result (list str) :=
  match df with
  | [] => Err (KeyError column_name)
  | (name, cells) :: df' =>
      if decide (name = column_name) then Ok cells else column df' column_name
  end.

(** [pd.DataFrame({...})] from a dict of lists: the lists must all have the
    same length, otherwise pandas raises a [ValueError]. *)
Definition DataFrame (columns : list (str * list str)) : result frame :=
  match columns with
  | [] => Ok []
  | (_, cells) :: rest =>
      if forallb (λ c, length (snd c) =? length cells) rest then Ok columns
      else Err (ValueError «"All arrays must be of the same length"»)
  end.

(** *** Command-line arguments of [main] (lines 20-35) *)
Record args := Args {
  adapter_dir : Path;
  prompt : str;
  input : str;
  model_name : str;
  quantize : option str;
  max_new_tokens : Z;
  top_k : option Z;
  temperature : Float;
  precision : option str;
  finetune_data_path : str;
  evaluation_dataset_name : str;
  device : Z;
  add_system_prompt : bool;
  output_file : str;
}.

(** Lines 36-39: resolve the output path, or exit with status -1. *)
Definition resolve_output (a : args) : M str :=
  resolved <- ext (ResolveOutputFile (output_file a));;
  match resolved with
  | Some (c :: rest) =>
      ext (Print [PStr «"output file:"»; PStr (c :: rest)]);;
      ret (c :: rest)
  | _ => exit (-1)
  end.

(** Lines 41-45: the base checkpoint directory and the adapter file. *)
Definition locate_checkpoints (a : args) : M (Path * Path) :=
  base_model_config <- ext (LoadConfig «"configs/base_model_path.yaml"»);;
  original_model_name_or_path <- ext (GetModelPath (model_name a) base_model_config);;
  let checkpoint_dir := Path_of original_model_name_or_path in
  let adapter_path := path_div (adapter_dir a) «"lit_model.pth"» in
  ret (checkpoint_dir, adapter_path).

(** Lines 47-51: the split-marker table. *)
Definition model_split_label : gmap str str :=
  <[«"beaver"» := «"ASSISTANT:"»]>
  (<[«"mistral-7b-it"» := «"[/INST]"»]>
  (<[«"falcon-7b"» := «"Falcon:"»]>
  (<[«"Llama-2-13b-chat-hf"» := «"[/INST]"»]>
  (<[«"Llama-2-7b-chat-hf"» := «"[/INST]"»]> ∅)))).

(** Line 72: [precision or get_default_supported_precision(training=False)]. *)
Definition resolve_precision (a : args) : M str :=
  match precision a with
  | Some (c :: rest) => ret (c :: rest)
  | _ => ext (GetDefaultSupportedPrecision false)
  end.

(** Line 78: the dtype table. *)
Definition dtype_table : gmap str dtype :=
  <[«"32-true"» := float32]>
  (<[«"bf16-true"» := bfloat16]>
  (<[«"16-true"» := float16]> ∅)).

(** Lines 74-80: the quantization plugin; returns [(plugins, precision)]. *)
Definition quantization_plugins (a : args) (precision : str)
  : M (option Plugin * option str) :=
  match quantize a with
  | Some q =>
      if startswith q «"bnb."» then
        if contains «"mixed"» precision then
          raise (ValueError «"Quantization and mixed precision is not supported."»)
        else
          dt <- lift (getitem dtype_table precision);;
          plugins <- ext (BitsandbytesPrecision (drop 4 q) dt);;
          ret (Some plugins, None)
      else ret (None, Some precision)
  | None => ret (None, Some precision)
  end.

(** What the set-up leaves for the generation loop. *)
Record runtime := Runtime {
  rt_fabric : Fabric;
  rt_tokenizer : Tokenizer;
  rt_model : Model;
  rt_max_returned_tokens : Z;
}.

(** Lines 82-116: Fabric, tokenizer, model construction, weight loading. *)
Definition load_model (a : args) (checkpoint_dir adapter_path : Path)
    (plugins : option Plugin) (precision : option str) : M runtime :=
  fabric <- ext (NewFabric [device a] precision plugins);;
  ext (FabricLaunch fabric);;
  ext (CheckValidCheckpointDir checkpoint_dir);;
  config <- ext (ConfigFromFile (path_div checkpoint_dir «"model_config.yaml"»));;
  let checkpoint_path := path_div checkpoint_dir «"lit_model.pth"» in
  tokenizer <- ext (NewTokenizer checkpoint_dir);;
  let max_returned_tokens := (512 + max_new_tokens a)%Z in
  ext (FabricPrint fabric [PPath adapter_path] true);;
  ext (FabricPrint fabric [PLoading checkpoint_path config] true);;
  t0 <- ext PerfCounter;;
  model <- ext (NewGPT fabric true config);;
  t1 <- ext PerfCounter;;
  ext (FabricPrint fabric [PElapsed «"Time to instantiate model"» t1 t0] true);;
  ext (SetMaxSeqLength fabric model max_returned_tokens);;
  ext (SetKvCache fabric model 1);;
  ext (ModelEval model);;
  ext (Print [PStr «"checkpoint_path: "»; PPath checkpoint_path]);;
  ext (Print [PStr «"adapter_path: "»; PPath adapter_path]);;
  t0 <- ext PerfCounter;;
  checkpoint <- ext (LazyLoad checkpoint_path);;
  adapter_checkpoint <- ext (LazyLoad adapter_path);;
  ext (FabricPrint fabric [PCheckpoint adapter_checkpoint] false);;
  delta <- ext (CheckpointGet adapter_checkpoint «"model"» adapter_checkpoint);;
  ext (CheckpointUpdate checkpoint delta);;
  ext (LoadStateDict model checkpoint);;
  t1 <- ext PerfCounter;;
  ext (FabricPrint fabric [PElapsed «"Time to load the model weights"» t1 t0] true);;
  model <- ext (FabricSetup fabric model);;
  ret (Runtime fabric tokenizer model max_returned_tokens).

(** Lines 118-121 and the column selected at line 124. *)
Definition load_dataset (a : args) : M (list str) :=
  ext (SeedEverything 1234);;
  config <- ext (LoadConfig «"configs/infer_modelpath_datasetpath_setting.yaml"»);;
  info <- ext (GetDatasetInfo (evaluation_dataset_name a) config);;
  let '(dataset_path, column_name) := info in
  datasetpd <- ext (ReadCsv dataset_path);;
  lift (column datasetpd column_name).

(** *** The generation loop (lines 122-139) *)

(** Line 137: [''.join(map(str, output.split(split_label)[1:]))]. *)
Definition truncate_output (output split_label : str) : result str :=
  match split output split_label with
  | Some parts => Ok (join_empty (map py_str (drop 1 parts)))
  | None => Err (ValueError «"empty separator"»)
  end.

(** Lines 125-128: the template call made for one row. *)
Definition template_call (prompt model_name : str) (add_system_prompt : bool)
    (finetune_data_path : str) : call str :=
  if decide (finetune_data_path = «"AOAidentity_shifting"») then
    ApplyPromptTemplate prompt model_name true finetune_data_path
  else
    ApplyPromptTemplate prompt model_name add_system_prompt finetune_data_path.

(** The variables the loop assigns.  [loop_prompt] is the variable [prompt]:
    the [for] statement rebinds the parameter of [main] of that name. *)
Record loop_vars := LoopVars {
  loop_prompt : str;
  predicted_sequences : list str;
  sources_sequences : list str;
}.

(** Lines 133-139, with [repeat = 1] from line 132. *)
Definition generate_repeat (a : args) (rt : runtime) (split_label : str)
    (encoded : Tensor) (repeat : nat) (vars : loop_vars) : M loop_vars :=
  for_each (seq 0 repeat) (λ i vars,
    y <- ext (Generate (rt_model rt) encoded (rt_max_returned_tokens rt)
                (temperature a) (eos_id (rt_tokenizer rt)));;
    output <- ext (Decode (rt_tokenizer rt) y);;
    output <- lift (truncate_output output split_label);;
    let vars := LoopVars (loop_prompt vars)
                  (predicted_sequences vars ++ [output])
                  (sources_sequences vars) in
    let vars := LoopVars (loop_prompt vars)
                  (predicted_sequences vars)
                  (sources_sequences vars ++ [loop_prompt vars]) in
    ret vars) vars.

(** Lines 124-139: one iteration of the loop over the dataset column. *)
Definition loop_body (a : args) (rt : runtime) (split_label : str)
    (row : str) (vars : loop_vars) : M loop_vars :=
  let vars := LoopVars row (predicted_sequences vars) (sources_sequences vars) in
  TEMPLATE <- ext (template_call (loop_prompt vars) (model_name a)
                     (add_system_prompt a) (finetune_data_path a));;
  encoded <- ext (Encode (rt_tokenizer rt) TEMPLATE (fabric_device (rt_fabric rt)));;
  let repeat := 1 in
  generate_repeat a rt split_label encoded repeat vars.

(** Lines 122-139. *)
Definition generation_loop (a : args) (rt : runtime) (split_label : str)
    (rows : list str) : M loop_vars :=
  let predicted_sequences := [] in
  let sources_sequences := [] in
  for_each rows (loop_body a rt split_label)
    (LoopVars (prompt a) predicted_sequences sources_sequences).

(** *** Result persistence (lines 140-153) *)
Definition save_inference_results (sources_sequences predicted_sequences : list str)
    (inference_output_path : str) : M unit :=
  let prompts := [] in
  let results := [] in
  pr <- for_each (zip sources_sequences predicted_sequences)
          (λ sp '(prompts, results),
             ret (prompts ++ [sp.1], results ++ [sp.2]))
          (prompts, results);;
  let '(prompts, results) := pr in
  df <- lift (DataFrame [(«"prompts"», prompts); («"results"», results)]);;
  ext (ToCsv df inference_output_path false);;
  ext (Print [PStr «"***** Save inference results *****"»]);;
  ext (Print [PStr («"Sucessful save predictions to "» ++ inference_output_path)]);;
  ext (Print [PStr («"CSV_PATH: "» ++ inference_output_path)]).

(** *** [main] (lines 20-155) *)
Definition main (a : args) : M unit :=
  output_file <- resolve_output a;;
  paths <- locate_checkpoints a;;
  let '(checkpoint_dir, adapter_path) := paths in
  split_label <- lift (getitem model_split_label (model_name a));;
  precision <- resolve_precision a;;
  pp <- quantization_plugins a precision;;
  let '(plugins, precision) := pp in
  rt <- load_model a checkpoint_dir adapter_path plugins precision;;
  rows <- load_dataset a;;
  vars <- generation_loop a rt split_label rows;;
  save_inference_results (sources_sequences vars) (predicted_sequences vars) output_file.

(** *** Reading the log *)

Definition is_generate (e : event) : bool :=
  match e with Ev (Generate _ _ _ _ _) _ => true | _ => false end.

Definition is_to_csv (e : event) : bool :=
  match e with Ev (ToCsv _ _ _) _ => true | _ => false end.

(** Calls that build the model or load its weights. *)
Definition is_model_loading (e : event) : bool :=
  match e with
  | Ev (NewGPT _ _ _) _ | Ev (LazyLoad _) _ | Ev (LoadStateDict _ _) _
  | Ev (CheckpointUpdate _ _) _ | Ev (FabricSetup _ _) _ => true
  | _ => false
  end.

(** The arguments of the template calls, in call order. *)
Fixpoint template_calls (l : list event) : list (str * str * bool * str) :=
  match l with
  | [] => []
  | Ev (ApplyPromptTemplate text model_name add_sys_prefix finetune_dataname) _ :: l' =>
      (text, model_name, add_sys_prefix, finetune_dataname) :: template_calls l'
  | _ :: l' => template_calls l'
  end.

(** The frames handed to [to_csv], with path and [index] flag, in call order. *)
Fixpoint csv_writes (l : list event) : list (frame * str * bool) :=
  match l with
  | [] => []
  | Ev (ToCsv df path index) _ :: l' => (df, path, index) :: csv_writes l'
  | _ :: l' => csv_writes l'
  end.

(** The data frames that [read_csv] answered, in call order. *)
Fixpoint csv_reads (l : list event) : list frame :=
  match l with
  | [] => []
  | Ev (ReadCsv _) (Ok df) :: l' => df :: csv_reads l'
  | _ :: l' => csv_reads l'
  end.

Definition is_read_csv (e : event) : bool :=
  match e with Ev (ReadCsv _) _ => true | _ => false end.

(** The number of generation steps. *)
Definition generations (l : list event) : nat :=
  length (List.filter is_generate l).

(** Neither a generation step, nor a CSV read, nor a CSV write. *)
Definition quiet (e : event) : Prop :=
  is_to_csv e = false ∧ is_read_csv e = false ∧ is_generate e = false.

(** Every call that [m] makes, in any state, satisfies [P]. *)
Definition emits {A} (P : event → Prop) (m : M A) : Prop :=
  ∀ st, ∃ l, log (m st).2 = log st ++ l ∧ Forall P l.

(** [m] never exits the process. *)
Definition never_exits {A} (m : M A) : Prop :=
  ∀ st status st', m st ≠ (Exited status, st').

(** The flag that lines 125-128 pass as [add_sys_prefix]. *)
Definition sys_prefix_flag (a : args) : bool :=
  bool_decide (finetune_data_path a = «"AOAidentity_shifting"») || add_system_prompt a.

(** A template call as lines 125-128 make it for the arguments [a]. *)
Definition template_event_ok (a : args) (e : event) : Prop :=
  match e with
  | Ev (ApplyPromptTemplate _ model add_sys_prefix dataname) _ =>
      model = model_name a ∧ add_sys_prefix = sys_prefix_flag a ∧
      dataname = finetune_data_path a
  | _ => True
  end.

(** Neither a generation step nor a call that builds or loads the model. *)
Definition before_model (e : event) : Prop :=
  is_generate e = false ∧ is_model_loading e = false.

(** [main] with other values for the [prompt] and [input] arguments. *)
Definition with_prompt_input (a : args) (prompt' input' : str) : args :=
  Args (adapter_dir a) prompt' input' (model_name a) (quantize a)
    (max_new_tokens a) (top_k a) (temperature a) (precision a)
    (finetune_data_path a) (evaluation_dataset_name a) (device a)
    (add_system_prompt a) (output_file a).

(** [main] with another value for the [top_k] argument. *)
Definition with_top_k (a : args) (top_k' : option Z) : args :=
  Args (adapter_dir a) (prompt a) (input a) (model_name a) (quantize a)
    (max_new_tokens a) top_k' (temperature a) (precision a)
    (finetune_data_path a) (evaluation_dataset_name a) (device a)
    (add_system_prompt a) (output_file a).

(** The condition of line 75. *)
Definition quantized (a : args) : bool :=
  match quantize a with
  | Some q => startswith q «"bnb."»
  | None => false
  end.

(** The texts that [tokenizer.decode] answered, in call order. *)
Fixpoint decoded (l : list event) : list str :=
  match l with
  | [] => []
  | Ev (Decode _ _) (Ok d) :: l' => d :: decoded l'
  | _ :: l' => decoded l'
  end.

Definition is_template (e : event) : bool :=
  match e with Ev (ApplyPromptTemplate _ _ _ _) _ => true | _ => false end.

Definition is_decode (e : event) : bool :=
  match e with Ev (Decode _ _) _ => true | _ => false end.

(** A call made outside the generation loop: no template, no decoding. *)
Definition outside_loop (e : event) : Prop :=
  is_template e = false ∧ is_decode e = false.

(** Neither a generation step nor a CSV write. *)
Definition before_loop (e : event) : Prop :=
  is_generate e = false ∧ is_to_csv e = false.

(** The sequence bound and the sampling parameters as lines 92, 102, 104
    and 134 pass them. *)
Definition sampling_event_ok (a : args) (e : event) : Prop :=
  match e with
  | Ev (SetMaxSeqLength _ _ n) _ => n = (512 + max_new_tokens a)%Z
  | Ev (SetKvCache _ _ batch_size) _ => batch_size = 1%Z
  | Ev (Generate _ _ n t _) _ => n = (512 + max_new_tokens a)%Z ∧ t = temperature a
  | _ => True
  end.

Definition answered_ok (e : event) : bool :=
  match e with Ev _ (Ok _) => true | _ => false end.

Definition is_model_construction (e : event) : bool :=
  match e with Ev (NewGPT _ _ _) _ => true | _ => false end.

Definition is_load_state_dict (e : event) : bool :=
  match e with Ev (LoadStateDict _ _) _ => true | _ => false end.

Definition is_fabric_setup (e : event) : bool :=
  match e with Ev (FabricSetup _ _) _ => true | _ => false end.

Definition is_seed_1234 (e : event) : bool :=
  match e with Ev (SeedEverything seed) _ => (seed =? 1234)%Z | _ => false end.

(** Some call of the kind [p] in [l] was answered with a value. *)
Definition done_ok (p : event → bool) (l : list event) : Prop :=
  existsb (λ e, p e && answered_ok e) l = true.

(** The exceptions that the script raises itself: the [KeyError] of a failed
    look-up (lines 52, 78, 124) and the [ValueError] of line 77. *)
Definition own_exception (e : exn) : Prop :=
  (∃ key, e = KeyError key) ∨
  e = ValueError «"Quantization and mixed precision is not supported."».

(** The last call in the log answered with the exception [e]. *)
Definition raised_by_last_call (e : exn) (l : list event) : Prop :=
  ∃ T (c : call T) l', l = l' ++ [Ev c (Err e)].

(** Whatever [m] returns satisfies [Q]. *)
Definition returns {A} (Q : A → Prop) (m : M A) : Prop :=
  ∀ st a st', m st = (Returned a, st') → Q a.

(** Whatever [m] raises is an exception of the script's own or the answer
    of the library call it made last. *)
Definition raises_cleanly {A} (m : M A) : Prop :=
  ∀ st e st', m st = (Raised e, st') →
    own_exception e ∨ raised_by_last_call e (log st').

(** The calls of [get_default_supported_precision], with the [training]
    flag and the answer, in call order. *)
Fixpoint default_precision_calls (l : list event) : list (bool * result str) :=
  match l with
  | [] => []
  | Ev (GetDefaultSupportedPrecision training) r :: l' =>
      (training, r) :: default_precision_calls l'
  | _ :: l' => default_precision_calls l'
  end.

(** The calls of [BitsandbytesPrecision], with mode, dtype and the answer. *)
Fixpoint plugin_calls (l : list event) : list (str * dtype * result Plugin) :=
  match l with
  | [] => []
  | Ev (BitsandbytesPrecision mode dt) r :: l' => (mode, dt, r) :: plugin_calls l'
  | _ :: l' => plugin_calls l'
  end.

(** The calls of [L.Fabric], with devices, precision and plugins. *)
Fixpoint fabric_calls (l : list event)
  : list (list Z * option str * option Plugin) :=
  match l with
  | [] => []
  | Ev (NewFabric devices precision plugins) _ :: l' =>
      (devices, precision, plugins) :: fabric_calls l'
  | _ :: l' => fabric_calls l'
  end.

Definition is_precision_call (e : event) : bool :=
  match e with
  | Ev (GetDefaultSupportedPrecision _) _ | Ev (BitsandbytesPrecision _ _) _
  | Ev (NewFabric _ _ _) _ => true
  | _ => false
  end.

(** In the run with the calls [l], the precision of line 72 is [p]: the
    [precision] argument when that is a non-empty string, and then no default
    was asked for; otherwise the answer of the one call that asked for the
    default, for inference. *)
Definition precision_resolved (a : args) (l : list event) (p : str) : Prop :=
  (precision a = Some p ∧ p ≠ [] ∧ default_precision_calls l = []) ∨
  ((precision a = None ∨ precision a = Some []) ∧
   default_precision_calls l = [(false, Ok p)]).

(** The dtype table of line 78, as a list. *)
Definition dtype_entries : list (str * dtype) :=
  [(«"16-true"», float16); («"bf16-true"», bfloat16); («"32-true"», float32)].

End Script.
End Adapter.

(** ** A stub of the external libraries

    Small enough to run the script by computation: paths and tensors are
    strings, the tokenizer is the identity, and the generator echoes the
    encoded prompt followed by a continuation fixed by the world. *)

Module Stub.
Import PyStr Adapter.

#[export] Instance objects : Objects := {|
  Path := str;
  Path_of := λ s, s;
  path_div := λ p name, p ++ «"/"» ++ name;
  Float := Z;
  Yaml := unit;
  Plugin := str;
  Fabric := unit;
  Device := unit;
  fabric_device := λ _, tt;
  ModelConfig := unit;
  Tokenizer := unit;
  eos_id := λ _, 2%Z;
  Model := unit;
  Checkpoint := unit;
  Tensor := str;
|}.

Record world := World {
  existing_files : list str;   (* output paths that cannot be used *)
  dataset : frame;             (* what [pd.read_csv] finds *)
  continuation : str;          (* what the model generates after the prompt *)
}.

Definition handle {T} (c : call T) (w : world) : result T * world :=
  match c in call T return result T * world with
  | ResolveOutputFile output_file =>
      (Ok (if bool_decide (output_file ∈ existing_files w) then None
           else Some output_file), w)
  | Print _ => (Ok tt, w)
  | FabricPrint _ _ _ => (Ok tt, w)
  | LoadConfig _ => (Ok tt, w)
  | GetModelPath model_name _ => (Ok («"checkpoints/"» ++ model_name), w)
  | GetDefaultSupportedPrecision _ => (Ok «"bf16-true"», w)
  | BitsandbytesPrecision mode _ => (Ok mode, w)
  | NewFabric _ _ _ => (Ok tt, w)
  | FabricLaunch _ => (Ok tt, w)
  | CheckValidCheckpointDir _ => (Ok tt, w)
  | ConfigFromFile _ => (Ok tt, w)
  | NewTokenizer _ => (Ok tt, w)
  | PerfCounter => (Ok 0%Z, w)
  | NewGPT _ _ _ => (Ok tt, w)
  | SetMaxSeqLength _ _ _ => (Ok tt, w)
  | SetKvCache _ _ _ => (Ok tt, w)
  | ModelEval _ => (Ok tt, w)
  | LazyLoad _ => (Ok tt, w)
  | CheckpointGet _ _ default => (Ok default, w)
  | CheckpointUpdate _ _ => (Ok tt, w)
  | LoadStateDict _ _ => (Ok tt, w)
  | FabricSetup _ model => (Ok model, w)
  | SeedEverything _ => (Ok tt, w)
  | GetDatasetInfo name _ => (Ok («"data/"» ++ name ++ «".csv"», «"prompt"»), w)
  | ReadCsv _ => (Ok (dataset w), w)
  | ApplyPromptTemplate text _ add_sys_prefix _ =>
      (Ok ((if add_sys_prefix then «"<<SYS>>be safe<</SYS>> "» else [])
           ++ «"[INST] "» ++ text ++ «" [/INST]"»), w)
  | Encode _ text _ => (Ok text, w)
  | Generate _ encoded _ _ _ => (Ok (encoded ++ continuation w), w)
  | Decode _ y => (Ok y, w)
  | ToCsv _ path _ =>
      (Ok tt, World (path :: existing_files w) (dataset w) (continuation w))
  end.

#[export] Instance library : Library := {|
  Adapter.World := world;
  Adapter.handle := @handle;
|}.

(** Arguments of [main]: the defaults of its signature, except for the ones
    the examples vary. *)
Definition args_with (model_name : str) (quantize precision : option str)
    (finetune_data_path : str) (add_system_prompt : bool) : args := {|
  adapter_dir := «"out/adapter"»;
  prompt := «"What food do llamas eat?"»;
  input := [];
  Adapter.model_name := model_name;
  Adapter.quantize := quantize;
  max_new_tokens := 512;
  top_k := Some 200%Z;
  temperature := 1%Z;
  Adapter.precision := precision;
  Adapter.finetune_data_path := finetune_data_path;
  evaluation_dataset_name := «"strongreject_small"»;
  device := 0;
  Adapter.add_system_prompt := add_system_prompt;
  output_file := «"inference_result.csv"»;
|}.

(** The defaults of the signature. *)
Definition default_args : args :=
  args_with «"Llama-2-7b-chat-hf"» None None «"SA"» false.

(** The identity-shifting fine-tuning data, system prompt not asked for. *)
Definition aoa_args : args :=
  args_with «"Llama-2-7b-chat-hf"» None None «"AOAidentity_shifting"» false.

(** A model name that the split-marker table does not know. *)
Definition unknown_model_args : args :=
  args_with «"gpt2"» None None «"SA"» false.

(** Quantization together with a mixed precision. *)
Definition quantized_mixed_args : args :=
  args_with «"falcon-7b"» (Some «"bnb.nf4"») (Some «"16-mixed"») «"SA"» false.

(** A two-row dataset and a model that answers every prompt the same way. *)
Definition two_rows : world := {|
  existing_files := [];
  dataset := [(«"prompt"», [«"Q1"»; «"Q2"»])];
  continuation := «" Sure."»;
|}.

(** The same, but the output file is already there. *)
Definition output_taken : world := {|
  existing_files := [«"inference_result.csv"»];
  dataset := [(«"prompt"», [«"Q1"»; «"Q2"»])];
  continuation := «" Sure."»;
|}.

(** The state in which a run starts: nothing called yet. *)
Definition start (w : world) : state := State w [].

(** Run [main] in a world, from an empty log. *)
Definition run (a : args) (w : world) : outcome unit * state :=
  main a (start w).

(** Quantization with a precision that has no dtype. *)
Definition quantized_odd_args : args :=
  args_with «"falcon-7b"» (Some «"bnb.int8"») (Some «"64-true"») «"SA"» false.

(** Quantization as it is meant to be used. *)
Definition quantized_args : args :=
  args_with «"falcon-7b"» (Some «"bnb.nf4-dq"») (Some «"bf16-true"») «"SA"» false.

(** A dataset file without the column that the configuration names. *)
Definition other_column : world := {|
  existing_files := [];
  dataset := [(«"text"», [«"Q1"»; «"Q2"»])];
  continuation := «" Sure."»;
|}.

(** The objects the stub hands to the generation loop. *)
Definition stub_runtime : runtime := Runtime tt tt tt 1024.

End Stub.

(** ** A stub that reads the dataset file as pandas does

    [pd.read_csv] does not hand over the text of the file: it infers a type
    for every column.  This stub keeps the text of the dataset file and
    answers [read_csv] with the cells as parsed: a column of which every cell
    is a non-empty string of digits is read as integers, whose text has no
    leading zeros.  Everything else is as in [Stub]. *)

Module ParsingStub.
Import PyStr Adapter Stub.

Definition is_digit (c : ascii) : bool :=
  (48 <=? nat_of_ascii c) && (nat_of_ascii c <=? 57).

Definition integer_text (cell : str) : bool :=
  match cell with
  | [] => false
  | _ => forallb is_digit cell
  end.

(** The decimal text of the integer that a string of digits denotes. *)
Fixpoint strip_zeros (cell : str) : str :=
  match cell with
  | c :: rest =>
      match rest with
      | [] => cell
      | _ => if bool_decide (c = "0"%char) then strip_zeros rest else cell
      end
  | [] => []
  end.

Definition parse_column (cells : list str) : list str :=
  if forallb integer_text cells then map strip_zeros cells else cells.

Definition parse_frame (file : frame) : frame :=
  map (λ column, (column.1, parse_column column.2)) file.

Record file_world := FileWorld {
  base : Stub.world;     (* everything but the dataset file *)
  file_text : frame;     (* the text of the dataset file, column by column *)
}.

Definition file_handle {T} (c : call T) (w : file_world)
  : result T * file_world :=
  match c in call T return result T * file_world with
  | ReadCsv _ => (Ok (parse_frame (file_text w)), w)
  | c' => let '(r, b) := Stub.handle c' (base w) in (r, FileWorld b (file_text w))
  end.

Definition library : Library := {|
  Adapter.World := file_world;
  Adapter.handle := @file_handle;
|}.

(** A dataset file whose prompts are numbers, one with leading zeros. *)
Definition numbered_prompts : file_world := {|
  base := two_rows;
  file_text := [(«"prompt"», [«"007"»; «"42"»])];
|}.

(** Run [main] against this stub, from an empty log. *)
Definition file_run (a : args) (w : file_world)
  : @outcome unit * @state _ library :=
  @main _ library a (@State _ library w []).

End ParsingStub.

(** ** Properties of the string operations *)

Module PyStrFacts.
Import PyStr.

Section Text.
Context {A : Type} `{EqDecision A}.
Implicit Types s sub sep pre post : list A.

Lemma startswith_spec s p : startswith s p = true ↔ ∃ post, s = p ++ post.
Proof. unfold startswith. rewrite bool_decide_eq_true. reflexivity. Qed.

Lemma find_Some sub s i :
  find sub s = Some i →
  ∃ pre post, s = pre ++ sub ++ post ∧ length pre = i ∧
    ∀ pre' post', s = pre' ++ sub ++ post' → i ≤ length pre'.
Proof.
  revert i. induction s as [|c s IH]; intros i; simpl.
  - destruct (startswith [] sub) eqn:E; [|discriminate].
    intros [= <-]. apply startswith_spec in E as [post E].
    exists [], post. split; [done|]. split; [done|]. intros; lia.
  - destruct (startswith (c :: s) sub) eqn:E.
    + intros [= <-]. apply startswith_spec in E as [post E].
      exists [], post. split; [done|]. split; [done|]. intros; lia.
    + destruct (find sub s) as [j|] eqn:F; [|discriminate].
      intros [= <-]. destruct (IH j eq_refl) as (pre & post & -> & <- & Hmin).
      exists (c :: pre), post. split; [done|]. split; [done|].
      intros [|c' pre'] post' Heq.
      * exfalso. simpl in Heq.
        assert (startswith (c :: pre ++ sub ++ post) sub = true) as E'
          by (apply startswith_spec; eauto).
        congruence.
      * simpl in Heq. injection Heq as -> Heq.
        specialize (Hmin _ _ Heq). simpl. lia.
Qed.

Lemma find_None sub s : find sub s = None → ¬ occurs sub s.
Proof.
  induction s as [|c s IH]; simpl.
  - destruct (startswith [] sub) eqn:E; [discriminate|].
    intros _ (pre & post & Heq).
    destruct pre; [|discriminate]. simpl in Heq.
    assert (startswith [] sub = true) by (apply startswith_spec; eauto).
    congruence.
  - destruct (startswith (c :: s) sub) eqn:E; [discriminate|].
    destruct (find sub s) eqn:F; [discriminate|].
    intros _ (pre & post & Heq). destruct pre as [|c' pre].
    + assert (startswith (c :: s) sub = true)
        by (apply startswith_spec; eauto).
      congruence.
    + simpl in Heq. injection Heq as -> Heq.
      apply IH; [done|]. by exists pre, post.
Qed.

Lemma find_leftmost sub s pre post :
  leftmost sub s pre post → find sub s = Some (length pre).
Proof.
  intros [Heq Hmin]. destruct (find sub s) as [i|] eqn:F.
  - destruct (find_Some _ _ _ F) as (pre' & post' & Heq' & <- & Hmin').
    f_equal. apply Nat.le_antisymm; eauto.
  - exfalso. eapply find_None; [done|]. by exists pre, post.
Qed.

Lemma find_absent sub s : ¬ occurs sub s → find sub s = None.
Proof.
  intros Hno. destruct (find sub s) as [i|] eqn:F; [|done].
  destruct (find_Some _ _ _ F) as (pre & post & ? & _).
  exfalso. apply Hno. by exists pre, post.
Qed.

Lemma contains_spec sub s : contains sub s = true ↔ occurs sub s.
Proof.
  unfold contains. destruct (find sub s) as [i|] eqn:F.
  - split; [|done]. intros _.
    destruct (find_Some _ _ _ F) as (pre & post & ? & _). by exists pre, post.
  - split; [done|]. intros Hocc. by apply find_None in F.
Qed.

(** An occurrence has a leftmost one. *)
Lemma occurs_leftmost sub s :
  occurs sub s → ∃ pre post, leftmost sub s pre post.
Proof.
  intros Hocc. destruct (find sub s) as [i|] eqn:F.
  - destruct (find_Some _ _ _ F) as (pre & post & Heq & <- & Hmin).
    exists pre, post. by split.
  - by apply find_None in F.
Qed.

(** The defining equation of [split_nonempty], as one rewrite rule. *)
Lemma split_nonempty_eq c sep' s :
  split_nonempty c sep' s =
    match find (c :: sep') s with
    | Some i => take i s :: split_nonempty c sep' (drop (i + S (length sep')) s)
    | None => [s]
    end.
Proof.
  rewrite split_nonempty_equation_1.
  destruct (inspect (find (c :: sep') s)) as [[i|] F];
    cbn [split_nonempty_unfold_clause_1]; rewrite F; reflexivity.
Qed.

Lemma split_absent c sep' s :
  ¬ occurs (c :: sep') s → split_nonempty c sep' s = [s].
Proof. intros Hno. rewrite split_nonempty_eq, find_absent; done. Qed.

Lemma split_leftmost c sep' s pre post :
  leftmost (c :: sep') s pre post →
  split_nonempty c sep' s = pre :: split_nonempty c sep' post.
Proof.
  intros Hl. rewrite split_nonempty_eq, (find_leftmost _ _ _ _ Hl).
  destruct Hl as [-> _]. f_equal.
  - by rewrite take_app_length.
  - f_equal. replace (length pre + S (length sep')) with
      (length pre + length (c :: sep')) by done.
    by rewrite <- drop_drop, drop_app_length, drop_app_length.
Qed.

Lemma find_Some_leftmost sub s i :
  find sub s = Some i → leftmost sub s (take i s) (drop (i + length sub) s).
Proof.
  intros F. destruct (find_Some _ _ _ F) as (pre & post & -> & <- & Hmin).
  rewrite take_app_length, <- drop_drop, !drop_app_length. by split.
Qed.

(** Two decompositions of one string around [sub] with heads of equal length
    are the same decomposition. *)
Lemma decomposition_inj sub pre post pre' post' :
  pre ++ sub ++ post = pre' ++ sub ++ post' → length pre = length pre' →
  pre = pre' ∧ post = post'.
Proof.
  intros Heq Hlen. apply app_inj_1 in Heq as [-> Heq]; [|done].
  apply app_inv_head in Heq. done.
Qed.

(** The leftmost occurrence is the only one when [sub] does not occur
    further to the right. *)
Lemma leftmost_once sub s pre post :
  leftmost sub s pre post → ¬ occurs sub (drop (S (length pre)) s) →
  occurs_once sub s pre post.
Proof.
  intros [Heq Hmin] Hno. split; [done|]. intros pre' post' Heq'.
  destruct (decide (length pre' = length pre)) as [Hlen|Hlen].
  - rewrite Heq in Heq'. by destruct (decomposition_inj _ _ _ _ _ Heq' (eq_sym Hlen)).
  - exfalso. apply Hno. specialize (Hmin _ _ Heq').
    exists (drop (S (length pre)) pre'), post'.
    rewrite Heq', drop_app_le by lia. done.
Qed.

(** With a single occurrence of a non-empty [sub], that occurrence is the
    leftmost one and nothing after it contains [sub]. *)
Lemma once_leftmost sub s pre post :
  occurs_once sub s pre post → leftmost sub s pre post.
Proof.
  intros [Heq Huniq]. split; [done|]. intros pre' post' Heq'.
  by rewrite (Huniq _ _ Heq').
Qed.

Lemma once_rest_free sub s pre post :
  sub ≠ [] → occurs_once sub s pre post → ¬ occurs sub post.
Proof.
  intros Hne [Heq Huniq] (p1 & p2 & ->).
  assert (pre ++ sub ++ p1 = pre) as Habs.
  { apply (Huniq _ p2). rewrite Heq. by rewrite <- !app_assoc. }
  apply (f_equal length) in Habs. rewrite !length_app in Habs.
  destruct sub; [done|]. simpl in Habs. lia.
Qed.

(** No segment of a split contains the separator. *)
Lemma split_segments_free c sep' s :
  Forall (λ seg, ¬ occurs (c :: sep') seg) (split_nonempty c sep' s).
Proof.
  remember (length s) as n eqn:Hn. revert s Hn.
  induction n as [n IH] using lt_wf_ind. intros s ->.
  rewrite split_nonempty_eq. destruct (find (c :: sep') s) as [i|] eqn:F.
  - destruct (find_Some _ _ _ F) as (pre & post & -> & <- & Hmin).
    rewrite take_app_length.
    replace (length pre + S (length sep')) with
      (length pre + length (c :: sep')) by done.
    rewrite <- drop_drop, !drop_app_length. constructor.
    + intros (p1 & p2 & ->).
      specialize (Hmin p1 (p2 ++ c :: sep' ++ post)).
      rewrite <- !app_assoc in Hmin. specialize (Hmin eq_refl).
      rewrite !length_app in Hmin. simpl in Hmin. lia.
    + apply (IH (length post)); [|done]. rewrite !length_app. simpl. lia.
  - constructor; [|constructor]. by apply find_None.
Qed.

Lemma split_length_pos c sep' s : 1 ≤ length (split_nonempty c sep' s).
Proof. rewrite split_nonempty_eq. destruct (find _ s); simpl; lia. Qed.

(** Splitting and joining with the empty string loses exactly the
    separators: one per cut. *)
Lemma split_join_length c sep' s :
  length (join_empty (split_nonempty c sep' s))
    + (length (split_nonempty c sep' s) - 1) * S (length sep') = length s.
Proof.
  remember (length s) as n eqn:Hn. revert s Hn.
  induction n as [n IH] using lt_wf_ind. intros s ->.
  rewrite split_nonempty_eq. destruct (find (c :: sep') s) as [i|] eqn:F.
  - destruct (find_Some _ _ _ F) as (pre & post & -> & <- & Hmin).
    rewrite take_app_length.
    replace (length pre + S (length sep')) with
      (length pre + length (c :: sep')) by done.
    rewrite <- drop_drop, !drop_app_length.
    assert (length post < length (pre ++ (c :: sep') ++ post)) as Hlt
      by (rewrite !length_app; simpl; lia).
    specialize (IH _ Hlt post eq_refl).
    pose proof (split_length_pos c sep' post) as Hpos.
    unfold join_empty in *. simpl. rewrite !length_app. simpl.
    rewrite length_app. simpl. nia.
  - unfold join_empty. simpl. rewrite app_nil_r. lia.
Qed.

(** A split has at least two segments exactly when the separator occurs. *)
Lemma split_occurs_length c sep' s :
  occurs (c :: sep') s → 2 ≤ length (split_nonempty c sep' s).
Proof.
  intros Hocc. rewrite split_nonempty_eq.
  destruct (find (c :: sep') s) eqn:F; [|by apply find_None in F].
  simpl. pose proof (split_length_pos c sep' (drop (n + S (length sep')) s)). lia.
Qed.

(** Joining what was split is strictly shorter than the original when the
    separator occurred. *)
Lemma split_join_shorter c sep' s :
  occurs (c :: sep') s →
  length (join_empty (split_nonempty c sep' s)) < length s.
Proof.
  intros Hocc. pose proof (split_occurs_length _ _ _ Hocc).
  pose proof (split_join_length c sep' s). nia.
Qed.

(** The segments of a split, each followed by the separator, make up the
    original followed by the separator: nothing but separators is cut out,
    and nothing is reordered. *)
Lemma split_pieces c sep' s :
  concat (map (λ seg, seg ++ c :: sep') (split_nonempty c sep' s))
  = s ++ c :: sep'.
Proof.
  remember (length s) as n eqn:Hn. revert s Hn.
  induction n as [n IH] using lt_wf_ind. intros s ->.
  rewrite split_nonempty_eq. destruct (find (c :: sep') s) as [i|] eqn:F.
  - destruct (find_Some _ _ _ F) as (pre & post & -> & <- & _).
    rewrite take_app_length.
    replace (length pre + S (length sep')) with
      (length pre + length (c :: sep')) by done.
    rewrite <- drop_drop, !drop_app_length.
    cbn [map concat]. rewrite (IH (length post)); [|rewrite !length_app; simpl; lia|done].
    by rewrite <- !app_assoc.
  - simpl. by rewrite app_nil_r.
Qed.

End Text.
End PyStrFacts.

(** ** Properties of the output truncation (line 137) *)

Module Truncation.
Import PyStr PyStrFacts Adapter.

Lemma contains_false {A} `{EqDecision A} (sub s : list A) :
  contains sub s = false → ¬ occurs sub s.
Proof. intros Hc Hocc. apply contains_spec in Hocc. congruence. Qed.

(** The table has five keys and three distinct markers. *)
Lemma split_label_cases (model label : str) :
  model_split_label !! model = Some label →
  label = «"[/INST]"» ∨ label = «"Falcon:"» ∨ label = «"ASSISTANT:"».
Proof.
  unfold model_split_label. intros Hl.
  repeat (apply lookup_insert_Some in Hl as [ [_ Heq] | [_ Hl] ];
          [subst label; by auto|]).
  by rewrite lookup_empty in Hl.
Qed.

Lemma split_label_nonempty (model label : str) :
  model_split_label !! model = Some label → ∃ c sep', label = c :: sep'.
Proof.
  intros Hl. destruct (split_label_cases _ _ Hl) as [-> | [-> | ->] ];
    vm_compute; eauto.
Qed.

Lemma map_py_str (parts : list str) : map py_str parts = parts.
Proof. unfold py_str. induction parts; simpl; congruence. Qed.

Lemma truncate_absent (c : ascii) (sep' output : str) :
  ¬ occurs (c :: sep') output → truncate_output output (c :: sep') = Ok [].
Proof.
  intros Hno. unfold truncate_output, split.
  by rewrite split_absent.
Qed.

Lemma truncate_leftmost (c : ascii) (sep' output pre post : str) :
  leftmost (c :: sep') output pre post →
  truncate_output output (c :: sep') = Ok (join_empty (split_nonempty c sep' post)).
Proof.
  intros Hl. unfold truncate_output, split.
  rewrite (split_leftmost _ _ _ _ _ Hl). simpl. by rewrite map_py_str.
Qed.

(** C3: when the decoded output does not contain the model's split marker,
    the truncation step produces the empty string, not the output itself. *)
Theorem marker_absent_gives_empty (model label output : str) :
  model_split_label !! model = Some label →
  ¬ occurs label output →
  truncate_output output label = Ok [].
Proof.
  intros Hl Hno. destruct (split_label_nonempty _ _ Hl) as (c & sep' & ->).
  by apply truncate_absent.
Qed.

Lemma marker_absent_gives_empty_witness :
  truncate_output «"I cannot help with that."» «"Falcon:"» = Ok [].
Proof.
  apply (marker_absent_gives_empty «"falcon-7b"»).
  - vm_compute. reflexivity.
  - apply contains_false. vm_compute. reflexivity.
Defined.

(** C2, as it holds: when the decoded output contains the model's split
    marker exactly once, the truncation step returns the text that follows
    the marker, i.e. the output with everything up to and including the
    marker removed. *)
Theorem single_marker_keeps_following_text (model label output pre post : str) :
  model_split_label !! model = Some label →
  occurs_once label output pre post →
  truncate_output output label = Ok post.
Proof.
  intros Hl Honce. destruct (split_label_nonempty _ _ Hl) as (c & sep' & ->).
  rewrite (truncate_leftmost _ _ _ pre post) by by apply once_leftmost.
  rewrite split_absent by by eapply once_rest_free.
  unfold join_empty. simpl. by rewrite app_nil_r.
Qed.

Lemma single_marker_keeps_following_text_witness :
  truncate_output «"[INST] Q1 [/INST] Sure."» «"[/INST]"» = Ok «" Sure."».
Proof.
  apply (single_marker_keeps_following_text «"mistral-7b-it"» _ _ «"[INST] Q1 "»).
  - vm_compute. reflexivity.
  - apply leftmost_once.
    + exact (find_Some_leftmost «"[/INST]"» «"[INST] Q1 [/INST] Sure."» 10 eq_refl).
    + apply contains_false. vm_compute. reflexivity.
Defined.

(** C2, as stated, fails when the marker recurs: the result is neither the
    text after the first marker nor the text after the last one. *)
Lemma following_text_counterexample :
  let output := «"[INST] Q [/INST] A [/INST] B"» in
  model_split_label !! «"Llama-2-7b-chat-hf"» = Some «"[/INST]"» ∧
  leftmost «"[/INST]"» output «"[INST] Q "» «" A [/INST] B"» ∧
  output = «"[INST] Q [/INST] A "» ++ «"[/INST]"» ++ «" B"» ∧
  truncate_output output «"[/INST]"» = Ok «" A  B"» ∧
  truncate_output output «"[/INST]"» ≠ Ok «" A [/INST] B"» ∧
  truncate_output output «"[/INST]"» ≠ Ok «" B"».
Proof.
  cbv zeta. split; [vm_compute; reflexivity|]. split.
  { exact (find_Some_leftmost «"[/INST]"» «"[INST] Q [/INST] A [/INST] B"» 9 eq_refl). }
  split; [reflexivity|]. split; [vm_compute; reflexivity|].
  split; vm_compute; discriminate.
Qed.

(** C9: when the marker recurs after its first occurrence, the truncation
    step removes every further occurrence and concatenates what is left.
    The text following the first marker is cut into segments, none of which
    contains the marker, that are exactly that text with the markers between
    them taken out (the segments, each followed by the marker, make up the
    text followed by the marker); the result is the concatenation of the
    segments.  When the marker does recur in that text, the result is
    strictly shorter than, hence different from, the text itself. *)
Theorem repeated_marker_all_removed (model label output pre post : str) :
  model_split_label !! model = Some label →
  leftmost label output pre post →
  ∃ segments,
    concat (map (λ seg, seg ++ label) segments) = post ++ label ∧
    Forall (λ seg, ¬ ∃ l r, seg = l ++ label ++ r) segments ∧
    truncate_output output label = Ok (concat segments) ∧
    ((∃ l r, post = l ++ label ++ r) →
       2 ≤ length segments ∧
       length (concat segments) < length post ∧
       truncate_output output label ≠ Ok post).
Proof.
  intros Hl Hleft. destruct (split_label_nonempty _ _ Hl) as (c & sep' & ->).
  exists (split_nonempty c sep' post).
  split; [apply split_pieces|].
  split; [apply split_segments_free|].
  split; [by apply (truncate_leftmost _ _ _ pre)|].
  intros Hocc. pose proof (split_join_shorter _ _ _ Hocc) as Hlt.
  split; [by apply split_occurs_length|]. split; [done|].
  rewrite (truncate_leftmost _ _ _ pre post) by done.
  intros [= Heq]. unfold join_empty in *. rewrite Heq in Hlt. lia.
Qed.

(** Cutting at the markers can bring the two halves of a new marker
    together: the result of the truncation may itself contain the marker. *)
Example marker_can_reappear :
  truncate_output «"Q [/INST] [/INS[/INST]T] end"» «"[/INST]"»
  = Ok «" [/INST] end"».
Proof. vm_compute. reflexivity. Qed.

Lemma repeated_marker_all_removed_witness :
  ∃ segments,
    concat (map (λ seg, seg ++ «"[/INST]"») segments)
    = «" A [/INST] B"» ++ «"[/INST]"» ∧
    Forall (λ seg, ¬ ∃ l r, seg = l ++ «"[/INST]"» ++ r) segments ∧
    truncate_output «"[INST] Q [/INST] A [/INST] B"» «"[/INST]"»
    = Ok (concat segments) ∧
    ((∃ l r, «" A [/INST] B"» = l ++ «"[/INST]"» ++ r) →
       2 ≤ length segments ∧
       length (concat segments) < length «" A [/INST] B"» ∧
       truncate_output «"[INST] Q [/INST] A [/INST] B"» «"[/INST]"»
       ≠ Ok «" A [/INST] B"»).
Proof.
  apply (repeated_marker_all_removed «"Llama-2-13b-chat-hf"» _ _ «"[INST] Q "»).
  - vm_compute. reflexivity.
  - exact (find_Some_leftmost «"[/INST]"» «"[INST] Q [/INST] A [/INST] B"» 9 eq_refl).
Defined.

(** The run of that example, spelt out: two segments, the marker between
    them gone. *)
Example repeated_marker_example :
  truncate_output «"[INST] Q [/INST] A [/INST] B"» «"[/INST]"»
  = Ok (concat [«" A "»; «" B"»]) ∧
  concat (map (λ seg, seg ++ «"[/INST]"») [«" A "»; «" B"»])
  = «" A [/INST] B"» ++ «"[/INST]"».
Proof. split; vm_compute; reflexivity. Qed.

End Truncation.

(** ** Properties of the monad and of the phases of [main] *)

Module Run.
Import PyStr PyStrFacts Adapter.

Section Facts.
Context `{Objects} `{!Library}.

Lemma bind_Returned {A B} (m : M A) (f : A → M B) st b st' :
  bind m f st = (Returned b, st') →
  ∃ a st1, m st = (Returned a, st1) ∧ f a st1 = (Returned b, st').
Proof.
  unfold bind. destruct (m st) as [[a|e|c] st1]; intros Heq;
    [eauto | discriminate | discriminate].
Qed.

Lemma bind_Exited {A B} (m : M A) (f : A → M B) st c st' :
  bind m f st = (Exited c, st') →
  m st = (Exited c, st') ∨
  ∃ a st1, m st = (Returned a, st1) ∧ f a st1 = (Exited c, st').
Proof.
  unfold bind. destruct (m st) as [[a|e|c'] st1]; intros Heq;
    [right; eauto | discriminate | left; congruence].
Qed.

Lemma bind_step {A B} (m : M A) (f : A → M B) st a st1 :
  m st = (Returned a, st1) → bind m f st = f a st1.
Proof. unfold bind. by intros ->. Qed.

Lemma bind_raise {A B} (m : M A) (f : A → M B) st e st1 :
  m st = (Raised e, st1) → bind m f st = (Raised e, st1).
Proof. unfold bind. by intros ->. Qed.

Lemma bind_exit {A B} (m : M A) (f : A → M B) st c st1 :
  m st = (Exited c, st1) → bind m f st = (Exited c, st1).
Proof. unfold bind. by intros ->. Qed.

Lemma lift_Returned {A} (r : result A) st a st' :
  lift r st = (Returned a, st') → r = Ok a ∧ st' = st.
Proof. destruct r; simpl; [by intros [= <- <-] | discriminate]. Qed.

Lemma ext_run {T} (c : call T) st :
  ext c st =
    (match (handle c (world st)).1 with
     | Ok v => Returned v
     | Err e => Raised e
     end,
     State (handle c (world st)).2 (log st ++ [Ev c (handle c (world st)).1])).
Proof. unfold ext. destruct (handle c (world st)) as [[v|e] w]; done. Qed.

Lemma ext_Returned {T} (c : call T) st v st' :
  ext c st = (Returned v, st') →
  ∃ w, handle c (world st) = (Ok v, w) ∧ st' = State w (log st ++ [Ev c (Ok v)]).
Proof.
  unfold ext. destruct (handle c (world st)) as [[v'|e] w]; intros [= <- <-]; eauto.
Qed.

Lemma ext_Ok {T} (c : call T) st v w :
  handle c (world st) = (Ok v, w) →
  ext c st = (Returned v, State w (log st ++ [Ev c (Ok v)])).
Proof. unfold ext. by intros ->. Qed.

(** *** Calls made *)

Lemma emits_ret {A} P (a : A) : emits P (ret a).
Proof. intros st. exists []. by rewrite app_nil_r. Qed.

Lemma emits_raise {A} P e : emits P (@raise _ _ A e).
Proof. intros st. exists []. by rewrite app_nil_r. Qed.

Lemma emits_exit {A} P c : emits P (@exit _ _ A c).
Proof. intros st. exists []. by rewrite app_nil_r. Qed.

Lemma emits_lift {A} P (r : result A) : emits P (lift r).
Proof. destruct r; [apply emits_ret | apply emits_raise]. Qed.

Lemma emits_ext {T} (P : event → Prop) (c : call T) :
  (∀ r, P (Ev c r)) → emits P (ext c).
Proof.
  intros HP st. rewrite ext_run. simpl. eexists. split; [done|].
  constructor; [apply HP | constructor].
Qed.

Lemma emits_bind {A B} P (m : M A) (f : A → M B) :
  emits P m → (∀ a, emits P (f a)) → emits P (bind m f).
Proof.
  intros Hm Hf st. unfold bind. destruct (Hm st) as (l1 & Hl1 & HP1).
  destruct (m st) as [[a|e|c] st1]; simpl in *; [|by eauto..].
  destruct (Hf a st1) as (l2 & Hl2 & HP2).
  exists (l1 ++ l2). rewrite Hl2, Hl1, app_assoc. split; [done|].
  by apply Forall_app.
Qed.

Lemma emits_for_each {X V} P (xs : list X) (body : X → V → M V) vars :
  (∀ x v, emits P (body x v)) → emits P (for_each xs body vars).
Proof.
  intros Hbody. revert vars. induction xs as [|x xs IH]; intros vars; simpl.
  - apply emits_ret.
  - apply emits_bind; [apply Hbody | apply IH].
Qed.

Lemma emits_Returned {A} P (m : M A) st a st' :
  emits P m → m st = (Returned a, st') →
  ∃ l, log st' = log st ++ l ∧ Forall P l.
Proof. intros Hm Heq. specialize (Hm st). by rewrite Heq in Hm. Qed.

(** *** Exits *)

Lemma never_exits_ret {A} (a : A) : never_exits (ret a).
Proof. intros st c st'. unfold ret. congruence. Qed.

Lemma never_exits_raise {A} e : never_exits (@raise _ _ A e).
Proof. intros st c st'. unfold raise. congruence. Qed.

Lemma never_exits_lift {A} (r : result A) : never_exits (lift r).
Proof. destruct r; [apply never_exits_ret | apply never_exits_raise]. Qed.

Lemma never_exits_ext {T} (c : call T) : never_exits (ext c).
Proof.
  intros st status st'. rewrite ext_run.
  destruct (handle c (world st)).1; congruence.
Qed.

Lemma never_exits_bind {A B} (m : M A) (f : A → M B) :
  never_exits m → (∀ a, never_exits (f a)) → never_exits (bind m f).
Proof.
  intros Hm Hf st c st' Heq. apply bind_Exited in Heq as [Heq|(a & st1 & _ & Heq)].
  - by apply Hm in Heq.
  - by apply Hf in Heq.
Qed.

Lemma never_exits_elim {A} (m : M A) st status st' :
  never_exits m → m st = (Exited status, st') → False.
Proof. intros Hm Heq. by apply Hm in Heq. Qed.

Lemma never_exits_for_each {X V} (xs : list X) (body : X → V → M V) vars :
  (∀ x v, never_exits (body x v)) → never_exits (for_each xs body vars).
Proof.
  intros Hbody. revert vars. induction xs as [|x xs IH]; intros vars; simpl.
  - apply never_exits_ret.
  - apply never_exits_bind; [apply Hbody | apply IH].
Qed.

End Facts.

(** Walk through a computation of the script, one statement at a time. *)
Ltac step_emits :=
  first
    [ apply emits_ret | apply emits_raise | apply emits_exit | apply emits_lift
    | apply emits_bind; [|intros ?]
    | apply emits_for_each; intros ? ?
    | match goal with
      | |- emits _ (match ?x with _ => _ end) => destruct x
      end ].

Ltac step_never_exits :=
  first
    [ apply never_exits_ret | apply never_exits_raise | apply never_exits_lift
    | apply never_exits_ext
    | apply never_exits_bind; [|intros ?]
    | apply never_exits_for_each; intros ? ?
    | match goal with
      | |- never_exits (match ?x with _ => _ end) => destruct x
      end ].

Ltac walk_emits side :=
  repeat step_emits; try (apply emits_ext; intros ?; side).

Section Phases.
Context `{Objects} `{!Library}.

(** *** Before the model exists *)

Lemma resolve_output_before_model a : emits before_model (resolve_output a).
Proof. unfold resolve_output. walk_emits ltac:(by split). Qed.

Lemma locate_checkpoints_before_model a :
  emits before_model (locate_checkpoints a).
Proof. unfold locate_checkpoints. walk_emits ltac:(by split). Qed.

Lemma resolve_precision_before_model a :
  emits before_model (resolve_precision a).
Proof. unfold resolve_precision. walk_emits ltac:(by split). Qed.

(** *** The only exit *)

Lemma resolve_output_Exited a st status st' :
  resolve_output a st = (Exited status, st') →
  status = (-1)%Z ∧
  ∃ r w, handle (ResolveOutputFile (output_file a)) (world st) = (Ok r, w) ∧
    truthy r = false ∧
    st' = State w (log st ++ [Ev (ResolveOutputFile (output_file a)) (Ok r)]).
Proof.
  unfold resolve_output. intros Heq.
  apply bind_Exited in Heq as [Heq|(r & st1 & Hr & Heq)].
  { by apply never_exits_ext in Heq. }
  apply ext_Returned in Hr as (w & Hw & ->).
  destruct r as [[|c rest]|]; simpl in Heq.
  - unfold exit in Heq. injection Heq as <- <-.
    split; [done|]. by exists (Some []), w.
  - exfalso. eapply never_exits_elim; [|exact Heq]. repeat step_never_exits.
  - unfold exit in Heq. injection Heq as <- <-.
    split; [done|]. by exists None, w.
Qed.

Lemma main_Exited a st status st' :
  main a st = (Exited status, st') → resolve_output a st = (Exited status, st').
Proof.
  unfold main. intros Heq.
  apply bind_Exited in Heq as [Heq|(out & st1 & _ & Heq)]; [done|].
  exfalso. eapply never_exits_elim; [|exact Heq].
  unfold locate_checkpoints, resolve_precision, quantization_plugins, load_model,
    load_dataset, generation_loop, loop_body, generate_repeat,
    save_inference_results.
  repeat step_never_exits.
Qed.

Lemma template_call_ok a row r :
  template_event_ok a
    (Ev (template_call row (model_name a) (add_system_prompt a)
           (finetune_data_path a)) r).
Proof.
  unfold template_call. case_decide as Hd; cbn [template_event_ok];
    unfold sys_prefix_flag.
  - by rewrite bool_decide_eq_true_2.
  - by rewrite bool_decide_eq_false_2.
Qed.

Lemma bind_ext {A B} (m : M A) (f g : A → M B) st :
  (∀ a st1, f a st1 = g a st1) → bind m f st = bind m g st.
Proof. intros Hfg. unfold bind. destruct (m st) as [[a|e|c] st1]; auto. Qed.

(** *** Summaries of a log *)

Lemma csv_writes_app l1 l2 : csv_writes (l1 ++ l2) = csv_writes l1 ++ csv_writes l2.
Proof.
  induction l1 as [|[T c r] l1 IH]; [done|].
  destruct c; simpl; by rewrite ?IH.
Qed.

Lemma csv_reads_app l1 l2 : csv_reads (l1 ++ l2) = csv_reads l1 ++ csv_reads l2.
Proof.
  induction l1 as [|[T c r] l1 IH]; [done|].
  destruct c; simpl; try done. destruct r; simpl; by rewrite ?IH.
Qed.

Lemma generations_app l1 l2 : generations (l1 ++ l2) = generations l1 + generations l2.
Proof. unfold generations. by rewrite List.filter_app, length_app. Qed.

Lemma quiet_summary l :
  Forall quiet l → csv_writes l = [] ∧ csv_reads l = [] ∧ generations l = 0.
Proof.
  induction 1 as [|[T c r] l (Hw & Hr & Hg) _ (IHw & IHr & IHg)]; [done|].
  unfold generations in *. destruct c; simpl in *; try done.
Qed.

(** *** The phases of a run that returns *)

Lemma resolve_output_quiet a : emits quiet (resolve_output a).
Proof. unfold resolve_output. walk_emits ltac:(done). Qed.

Lemma locate_checkpoints_quiet a : emits quiet (locate_checkpoints a).
Proof. unfold locate_checkpoints. walk_emits ltac:(done). Qed.

Lemma resolve_precision_quiet a : emits quiet (resolve_precision a).
Proof. unfold resolve_precision. walk_emits ltac:(done). Qed.

Lemma quantization_plugins_quiet a p : emits quiet (quantization_plugins a p).
Proof. unfold quantization_plugins. walk_emits ltac:(done). Qed.

Lemma load_model_quiet a d p pl pr : emits quiet (load_model a d p pl pr).
Proof. unfold load_model. walk_emits ltac:(done). Qed.

Lemma load_dataset_Returned a st rows st' :
  load_dataset a st = (Returned rows, st') →
  ∃ l din column_name,
    log st' = log st ++ l ∧ csv_reads l = [din] ∧
    column din column_name = Ok rows ∧
    csv_writes l = [] ∧ generations l = 0.
Proof.
  unfold load_dataset. intros Heq.
  apply bind_Returned in Heq as ([] & st1 & H1 & Heq).
  apply bind_Returned in Heq as (config & st2 & H2 & Heq).
  apply bind_Returned in Heq as ([dataset_path column_name] & st3 & H3 & Heq).
  apply bind_Returned in Heq as (din & st4 & H4 & Heq).
  apply ext_Returned in H1 as (w1 & _ & ->).
  apply ext_Returned in H2 as (w2 & _ & ->).
  apply ext_Returned in H3 as (w3 & _ & ->).
  apply ext_Returned in H4 as (w4 & _ & ->).
  destruct (column din column_name) as [cells|e] eqn:Hcol; [|discriminate].
  injection Heq as <- <-. simpl. eexists _, din, column_name.
  rewrite <- !app_assoc. split; [reflexivity|]. by rewrite Hcol.
Qed.

Lemma loop_body_Returned a rt label row vars st vars' st' :
  loop_body a rt label row vars st = (Returned vars', st') →
  ∃ output l,
    vars' = LoopVars row (predicted_sequences vars ++ [output])
              (sources_sequences vars ++ [row]) ∧
    log st' = log st ++ l ∧
    csv_writes l = [] ∧ csv_reads l = [] ∧ generations l = 1.
Proof.
  unfold loop_body, generate_repeat. simpl. intros Heq.
  apply bind_Returned in Heq as (TEMPLATE & st1 & H1 & Heq).
  apply bind_Returned in Heq as (encoded & st2 & H2 & Heq).
  apply bind_Returned in Heq as (vars1 & st3 & Heq & Hret).
  apply bind_Returned in Heq as (y & st4 & H3 & Heq).
  apply bind_Returned in Heq as (output0 & st5 & H4 & Heq).
  apply bind_Returned in Heq as (output & st6 & H5 & Heq).
  apply ext_Returned in H1 as (w1 & _ & ->).
  apply ext_Returned in H2 as (w2 & _ & ->).
  apply ext_Returned in H3 as (w3 & _ & ->).
  apply ext_Returned in H4 as (w4 & _ & ->).
  destruct (truncate_output output0 label) as [out|e]; [|discriminate].
  injection H5 as <- <-. injection Heq as <- <-. injection Hret as <- <-.
  simpl. eexists out, _. split; [reflexivity|].
  rewrite <- !app_assoc. split; [reflexivity|].
  unfold template_call, generations. by case_decide.
Qed.

Lemma loop_Returned a rt label rows vars0 st vars st' :
  for_each rows (loop_body a rt label) vars0 st = (Returned vars, st') →
  ∃ outs l,
    sources_sequences vars = sources_sequences vars0 ++ rows ∧
    predicted_sequences vars = predicted_sequences vars0 ++ outs ∧
    length outs = length rows ∧
    log st' = log st ++ l ∧
    csv_writes l = [] ∧ csv_reads l = [] ∧ generations l = length rows.
Proof.
  revert vars0 st. induction rows as [|row rows IH]; intros vars0 st; simpl.
  - intros [= <- <-]. exists [], []. by rewrite !app_nil_r.
  - intros Heq. apply bind_Returned in Heq as (vars1 & st1 & Hbody & Heq).
    apply loop_body_Returned in Hbody as (out & l1 & -> & Hl1 & Hw1 & Hr1 & Hg1).
    apply IH in Heq as (outs & l2 & Hs & Hp & Hlen & Hl2 & Hw2 & Hr2 & Hg2).
    simpl in Hs, Hp. exists (out :: outs), (l1 ++ l2).
    rewrite Hs, Hp, Hl2, Hl1, <- !app_assoc.
    rewrite csv_writes_app, csv_reads_app, generations_app, Hw1, Hw2, Hr1, Hr2, Hg1, Hg2.
    simpl. by rewrite Hlen.
Qed.

Lemma zip_loop (xs : list (str * str)) prompts results st :
  for_each xs
    (λ sp '(prompts, results), ret (prompts ++ [sp.1], results ++ [sp.2]))
    (prompts, results) st
  = (Returned (prompts ++ xs.*1, results ++ xs.*2), st).
Proof.
  revert prompts results. induction xs as [|[s p] xs IH]; intros prompts results.
  - simpl. by rewrite !app_nil_r.
  - simpl. unfold bind, ret at 1. rewrite IH. simpl. by rewrite <- !app_assoc.
Qed.

Lemma save_Returned ss ps path st st' :
  length ss = length ps →
  save_inference_results ss ps path st = (Returned tt, st') →
  ∃ post,
    log st' = log st ++
      Ev (ToCsv [(«"prompts"», ss); («"results"», ps)] path false) (Ok tt) :: post ∧
    csv_writes post = [] ∧ generations post = 0.
Proof.
  intros Hlen. unfold save_inference_results.
  unfold bind at 1. rewrite zip_loop. simpl.
  rewrite fst_zip, snd_zip by lia.
  rewrite Hlen, Nat.eqb_refl. simpl. intros Heq.
  apply bind_Returned in Heq as (df & st0 & [= <- <-] & Heq).
  apply bind_Returned in Heq as ([] & st1 & H1 & Heq).
  apply bind_Returned in Heq as ([] & st2 & H2 & Heq).
  apply bind_Returned in Heq as ([] & st3 & H3 & Heq).
  apply ext_Returned in H1 as (w1 & _ & ->).
  apply ext_Returned in H2 as (w2 & _ & ->).
  apply ext_Returned in H3 as (w3 & _ & ->).
  apply ext_Returned in Heq as (w4 & _ & ->).
  simpl. eexists. rewrite <- !app_assoc. split; [reflexivity|]. done.
Qed.

End Phases.
End Run.

(** ** Further properties of the truncation (line 137) *)

Module TruncationMore.
Import PyStr PyStrFacts Adapter Truncation.

Lemma join_split_sublist {A} `{EqDecision A} (c : A) (sep' s : list A) :
  join_empty (split_nonempty c sep' s) `sublist_of` s.
Proof.
  remember (length s) as n eqn:Hn. revert s Hn.
  induction n as [n IH] using lt_wf_ind. intros s ->.
  rewrite split_nonempty_eq. destruct (find (c :: sep') s) as [i|] eqn:F.
  - destruct (find_Some _ _ _ F) as (pre & post & -> & <- & _).
    rewrite take_app_length.
    replace (length pre + S (length sep')) with
      (length pre + length (c :: sep')) by done.
    rewrite <- drop_drop, !drop_app_length.
    unfold join_empty. simpl. apply sublist_app; [done|].
    apply (sublist_inserts_l (c :: sep')). apply (IH (length post)); [|done].
    rewrite !length_app. simpl. lia.
  - unfold join_empty. simpl. by rewrite app_nil_r.
Qed.

(** X1: with a marker of the table the truncation never raises, and it only
    deletes: the result is a subsequence of the decoded output, and unless it
    is empty it is shorter than the output by at least the marker. *)
Theorem truncation_only_deletes (model label output : str) :
  model_split_label !! model = Some label →
  ∃ r, truncate_output output label = Ok r ∧
       r `sublist_of` output ∧
       (r ≠ [] → length r + length label ≤ length output).
Proof.
  intros Hl. destruct (split_label_nonempty _ _ Hl) as (c & sep' & ->).
  destruct (find (c :: sep') output) as [i|] eqn:F.
  - apply find_Some_leftmost in F.
    set (pre := take i output) in *.
    set (post := drop (i + length (c :: sep')) output) in *.
    exists (join_empty (split_nonempty c sep' post)).
    split; [by apply (truncate_leftmost _ _ _ pre)|].
    pose proof (join_split_sublist c sep' post) as Hsub.
    destruct F as [Heq _]. split.
    + rewrite Heq. by do 2 apply sublist_inserts_l.
    + intros _. apply sublist_length in Hsub.
      rewrite Heq, !length_app. lia.
  - exists []. split; [by apply truncate_absent, find_None|].
    split; [apply sublist_nil_l | done].
Qed.

Lemma truncation_only_deletes_witness :
  ∃ r, truncate_output «"[INST] Q [/INST] A [/INST] B"» «"[/INST]"» = Ok r ∧
       r `sublist_of` «"[INST] Q [/INST] A [/INST] B"» ∧
       (r ≠ [] → length r + length «"[/INST]"»
                 ≤ length «"[INST] Q [/INST] A [/INST] B"»).
Proof.
  apply (truncation_only_deletes «"Llama-2-7b-chat-hf"»).
  vm_compute. reflexivity.
Defined.

End TruncationMore.

(** ** Further properties of [main] *)

Module Pipeline.
Import PyStr PyStrFacts Adapter Truncation Run.

Section More.
Context `{Objects} `{!Library}.

(** *** What a phase returns *)

Lemma returns_ret {A} (Q : A → Prop) a : Q a → returns Q (ret a).
Proof. intros HQ st a' st' [= <- <-]. done. Qed.

Lemma returns_raise {A} (Q : A → Prop) e : returns Q (raise e).
Proof. intros st a st'. unfold raise. discriminate. Qed.

Lemma returns_bind {A B} (Q : B → Prop) (m : M A) (f : A → M B) :
  (∀ a, returns Q (f a)) → returns Q (bind m f).
Proof.
  intros Hf st b st' Heq. apply bind_Returned in Heq as (a & st1 & _ & Heq).
  by eapply Hf.
Qed.

Lemma emits_bind_post {A B} P (Q : A → Prop) (m : M A) (f : A → M B) :
  emits P m → returns Q m → (∀ a, Q a → emits P (f a)) → emits P (bind m f).
Proof.
  intros Hm HQ Hf st. unfold bind. destruct (Hm st) as (l1 & Hl1 & HP1).
  destruct (m st) as [[a|e|c] st1] eqn:Hrun; simpl in *; [|by eauto..].
  destruct (Hf a (HQ _ _ _ Hrun) st1) as (l2 & Hl2 & HP2).
  exists (l1 ++ l2). rewrite Hl2, Hl1, app_assoc. split; [done|].
  by apply Forall_app.
Qed.

Lemma load_model_bound a d pth pl pr :
  returns (λ rt, rt_max_returned_tokens rt = (512 + max_new_tokens a)%Z)
    (load_model a d pth pl pr).
Proof.
  unfold load_model. repeat (apply returns_bind; intros ?). by apply returns_ret.
Qed.

(** X2: the [top_k] argument is never passed on: two runs of [main] that
    differ only in it make the same calls and end alike. *)
Theorem top_k_unused a top_k' st :
  main (with_top_k a top_k') st = main a st.
Proof. reflexivity. Qed.

(** X3: in every run, the sequence bound set on the model and the bound given
    to every generation step are the same [512 + max_new_tokens]; the KV
    cache is set for batch size 1 and every generation step samples with the
    [temperature] argument. *)
Theorem sampling_parameters a :
  ∀ st, ∃ l, log (main a st).2 = log st ++ l ∧ Forall (sampling_event_ok a) l.
Proof.
  change (emits (sampling_event_ok a) (main a)). unfold main.
  apply emits_bind; [unfold resolve_output; walk_emits ltac:(exact I)|intros out].
  apply emits_bind; [unfold locate_checkpoints; walk_emits ltac:(exact I)|intros [d pth]].
  apply emits_bind; [apply emits_lift|intros label].
  apply emits_bind; [unfold resolve_precision; walk_emits ltac:(exact I)|intros p].
  apply emits_bind;
    [unfold quantization_plugins; walk_emits ltac:(exact I)|intros [pl pr]].
  eapply emits_bind_post; [|apply load_model_bound|].
  { unfold load_model. walk_emits ltac:(first [exact I | reflexivity]). }
  intros rt Hbound.
  apply emits_bind; [unfold load_dataset; walk_emits ltac:(exact I)|intros rows].
  apply emits_bind.
  - unfold generation_loop, loop_body, generate_repeat.
    walk_emits ltac:(first [exact I | by split
                           | unfold template_call; case_decide; exact I]).
  - intros vars. unfold save_inference_results. walk_emits ltac:(exact I).
Qed.

(** X7: when a run reaches the quantization step with a [bnb.] mode and a
    resolved precision that is not mixed but is none of ["16-true"],
    ["bf16-true"], ["32-true"], [main] raises the [KeyError] of the dtype
    look-up of line 78, for that precision; no call has built or loaded the
    model. *)
Theorem quantized_unlisted_precision_fails
    a st output st1 paths st2 label p st3 q :
  resolve_output a st = (Returned output, st1) →
  locate_checkpoints a st1 = (Returned paths, st2) →
  model_split_label !! model_name a = Some label →
  resolve_precision a st2 = (Returned p, st3) →
  quantize a = Some q →
  startswith q «"bnb."» = true →
  contains «"mixed"» p = false →
  dtype_table !! p = None →
  main a st = (Raised (KeyError p), st3) ∧
  ∃ l, log st3 = log st ++ l ∧ Forall before_model l.
Proof.
  intros Hout Hloc Hlabel Hprec Hq Hbnb Hmixed Hdt. split.
  - unfold main. destruct paths as [d pth].
    erewrite bind_step by exact Hout. erewrite bind_step by exact Hloc.
    unfold getitem at 1. rewrite Hlabel. simpl.
    erewrite bind_step by reflexivity.
    erewrite bind_step by exact Hprec.
    unfold quantization_plugins. rewrite Hq, Hbnb, Hmixed.
    unfold getitem. by rewrite Hdt.
  - destruct (emits_Returned _ _ _ _ _ (resolve_output_before_model a) Hout)
      as (l1 & Hl1 & HP1).
    destruct (emits_Returned _ _ _ _ _ (locate_checkpoints_before_model a) Hloc)
      as (l2 & Hl2 & HP2).
    destruct (emits_Returned _ _ _ _ _ (resolve_precision_before_model a) Hprec)
      as (l3 & Hl3 & HP3).
    exists (l1 ++ l2 ++ l3). rewrite Hl3, Hl2, Hl1, <- !app_assoc.
    split; [done|]. by repeat apply Forall_app_2.
Qed.

Lemma column_missing (df : frame) column_name :
  (∀ cells, (column_name, cells) ∉ df) →
  column df column_name = Err (KeyError column_name).
Proof.
  induction df as [|[name cells] df IH]; intros Hno; simpl; [done|].
  case_decide as Hd.
  - subst. exfalso. apply (Hno cells). by left.
  - apply IH. intros cells' Hin. apply (Hno cells'). by right.
Qed.

Lemma column_found (df : frame) column_name cells :
  column df column_name = Ok cells → (column_name, cells) ∈ df.
Proof.
  induction df as [|[name cells'] df IH]; simpl; [done|].
  case_decide as Hd.
  - intros [= <-]. subst. by left.
  - intros Hc. right. by apply IH.
Qed.

(** X8: when the file that [read_csv] loads has no column of the name that
    [get_dataset_info] gave, loading the dataset raises the [KeyError] for
    that column name, after the CSV was read; nothing is generated. *)
Theorem missing_column_fails a st config w1 w2 dataset_path column_name w3 din w4 :
  handle (SeedEverything 1234) (world st) = (Ok tt, w1) →
  handle (LoadConfig «"configs/infer_modelpath_datasetpath_setting.yaml"») w1
    = (Ok config, w2) →
  handle (GetDatasetInfo (evaluation_dataset_name a) config) w2
    = (Ok (dataset_path, column_name), w3) →
  handle (ReadCsv dataset_path) w3 = (Ok din, w4) →
  (∀ cells, (column_name, cells) ∉ din) →
  ∃ l, load_dataset a st = (Raised (KeyError column_name), State w4 (log st ++ l)) ∧
       csv_reads l = [din] ∧ generations l = 0.
Proof.
  intros H1 H2 H3 H4 Hno. unfold load_dataset.
  erewrite bind_step by (apply ext_Ok; exact H1). simpl.
  erewrite bind_step by (apply ext_Ok; exact H2). simpl.
  erewrite bind_step by (apply ext_Ok; exact H3). simpl.
  erewrite bind_step by (apply ext_Ok; exact H4). simpl.
  rewrite column_missing by done. simpl.
  eexists. rewrite <- !app_assoc. split; [reflexivity|]. done.
Qed.

(** *** Runs that return *)

Lemma template_calls_app l1 l2 :
  template_calls (l1 ++ l2) = template_calls l1 ++ template_calls l2.
Proof.
  induction l1 as [|[T c r] l1 IH]; [done|].
  destruct c; simpl; by rewrite ?IH.
Qed.

Lemma decoded_app l1 l2 : decoded (l1 ++ l2) = decoded l1 ++ decoded l2.
Proof.
  induction l1 as [|[T c r] l1 IH]; [done|].
  destruct c; simpl; try done. destruct r; simpl; by rewrite ?IH.
Qed.

Lemma outside_loop_summary l :
  Forall outside_loop l → template_calls l = [] ∧ decoded l = [].
Proof.
  induction 1 as [|[T c r] l [Ht Hd] _ [IHt IHd]]; [done|].
  destruct c; simpl in *; try done.
Qed.

Lemma resolve_output_outside a : emits outside_loop (resolve_output a).
Proof. unfold resolve_output. walk_emits ltac:(done). Qed.

Lemma locate_checkpoints_outside a : emits outside_loop (locate_checkpoints a).
Proof. unfold locate_checkpoints. walk_emits ltac:(done). Qed.

Lemma resolve_precision_outside a : emits outside_loop (resolve_precision a).
Proof. unfold resolve_precision. walk_emits ltac:(done). Qed.

Lemma quantization_plugins_outside a p :
  emits outside_loop (quantization_plugins a p).
Proof. unfold quantization_plugins. walk_emits ltac:(done). Qed.

Lemma load_model_outside a d p pl pr : emits outside_loop (load_model a d p pl pr).
Proof. unfold load_model. walk_emits ltac:(done). Qed.

Lemma load_dataset_outside a : emits outside_loop (load_dataset a).
Proof. unfold load_dataset. walk_emits ltac:(done). Qed.

Lemma save_outside ss ps path :
  emits outside_loop (save_inference_results ss ps path).
Proof. unfold save_inference_results. walk_emits ltac:(done). Qed.

Lemma resolve_output_Returned a st out st1 :
  resolve_output a st = (Returned out, st1) →
  out ≠ [] ∧
  ∃ l, log st1 = log st
         ++ Ev (ResolveOutputFile (output_file a)) (Ok (Some out)) :: l ∧
       Forall quiet l ∧ Forall outside_loop l.
Proof.
  unfold resolve_output. intros Heq.
  apply bind_Returned in Heq as (r & st0 & Hr & Heq).
  apply ext_Returned in Hr as (w & _ & ->).
  destruct r as [[|c rest]|]; try discriminate.
  apply bind_Returned in Heq as ([] & st2 & Hp & [= <- <-]).
  apply ext_Returned in Hp as (w' & _ & ->). simpl.
  split; [done|]. eexists. rewrite <- app_assoc. split; [reflexivity|].
  split; by repeat constructor.
Qed.

Lemma main_Returned a st st' :
  main a st = (Returned tt, st') →
  ∃ out st1 d pth st2 label p st3 pl pr st4 rt st5 rows st6 vars st7,
    resolve_output a st = (Returned out, st1) ∧
    locate_checkpoints a st1 = (Returned (d, pth), st2) ∧
    model_split_label !! model_name a = Some label ∧
    resolve_precision a st2 = (Returned p, st3) ∧
    quantization_plugins a p st3 = (Returned (pl, pr), st4) ∧
    load_model a d pth pl pr st4 = (Returned rt, st5) ∧
    load_dataset a st5 = (Returned rows, st6) ∧
    generation_loop a rt label rows st6 = (Returned vars, st7) ∧
    save_inference_results (sources_sequences vars) (predicted_sequences vars)
      out st7 = (Returned tt, st').
Proof.
  unfold main. intros Heq.
  apply bind_Returned in Heq as (out & st1 & Hout & Heq).
  apply bind_Returned in Heq as ([d pth] & st2 & Hloc & Heq).
  apply bind_Returned in Heq as (label & st2' & Hlab & Heq).
  apply lift_Returned in Hlab as [Hlab ->].
  apply bind_Returned in Heq as (p & st3 & Hprec & Heq).
  apply bind_Returned in Heq as ([pl pr] & st4 & Hq & Heq).
  apply bind_Returned in Heq as (rt & st5 & Hload & Heq).
  apply bind_Returned in Heq as (rows & st6 & Hds & Heq).
  apply bind_Returned in Heq as (vars & st7 & Hloop & Hsave).
  unfold getitem in Hlab.
  destruct (model_split_label !! model_name a) as [label'|] eqn:Hl; [|done].
  injection Hlab as ->.
  by exists out, st1, d, pth, st2, label, p, st3, pl, pr, st4, rt, st5, rows,
    st6, vars, st7.
Qed.

Lemma loop_body_trace a rt label row vars st vars' st' :
  loop_body a rt label row vars st = (Returned vars', st') →
  ∃ d output l,
    truncate_output d label = Ok output ∧
    vars' = LoopVars row (predicted_sequences vars ++ [output])
              (sources_sequences vars ++ [row]) ∧
    log st' = log st ++ l ∧
    template_calls l
      = [(row, model_name a, sys_prefix_flag a, finetune_data_path a)] ∧
    decoded l = [d] ∧ csv_writes l = [].
Proof.
  unfold loop_body, generate_repeat. simpl. intros Heq.
  apply bind_Returned in Heq as (TEMPLATE & st1 & H1 & Heq).
  apply bind_Returned in Heq as (encoded & st2 & H2 & Heq).
  apply bind_Returned in Heq as (vars1 & st3 & Heq & Hret).
  apply bind_Returned in Heq as (y & st4 & H3 & Heq).
  apply bind_Returned in Heq as (d & st5 & H4 & Heq).
  apply bind_Returned in Heq as (output & st6 & H5 & Heq).
  apply ext_Returned in H1 as (w1 & _ & ->).
  apply ext_Returned in H2 as (w2 & _ & ->).
  apply ext_Returned in H3 as (w3 & _ & ->).
  apply ext_Returned in H4 as (w4 & _ & ->).
  destruct (truncate_output d label) as [out|e] eqn:Htr; [|discriminate].
  injection H5 as <- <-. injection Heq as <- <-. injection Hret as <- <-.
  simpl. exists d, out. eexists. split; [done|]. split; [reflexivity|].
  rewrite <- !app_assoc. split; [reflexivity|].
  unfold template_call, sys_prefix_flag. case_decide; simpl.
  - by rewrite bool_decide_eq_true_2.
  - by rewrite bool_decide_eq_false_2.
Qed.

Lemma loop_trace a rt label rows vars0 st vars st' :
  for_each rows (loop_body a rt label) vars0 st = (Returned vars, st') →
  ∃ outs l,
    sources_sequences vars = sources_sequences vars0 ++ rows ∧
    predicted_sequences vars = predicted_sequences vars0 ++ outs ∧
    log st' = log st ++ l ∧
    template_calls l
      = map (λ row, (row, model_name a, sys_prefix_flag a, finetune_data_path a))
          rows ∧
    Forall2 (λ d output, truncate_output d label = Ok output) (decoded l) outs ∧
    csv_writes l = [].
Proof.
  revert vars0 st. induction rows as [|row rows IH]; intros vars0 st; simpl.
  - intros [= <- <-]. exists [], []. rewrite !app_nil_r.
    repeat split; constructor.
  - intros Heq. apply bind_Returned in Heq as (vars1 & st1 & Hbody & Heq).
    apply loop_body_trace in Hbody
      as (d & out & l1 & Htr & -> & Hl1 & Ht1 & Hd1 & Hw1).
    apply IH in Heq as (outs & l2 & Hs & Hp & Hl2 & Ht2 & Hd2 & Hw2).
    simpl in Hs, Hp. exists (out :: outs), (l1 ++ l2).
    rewrite Hs, Hp, Hl2, Hl1, <- !app_assoc.
    rewrite template_calls_app, decoded_app, csv_writes_app, Ht1, Ht2, Hd1, Hw1, Hw2.
    repeat split; try done. simpl. by constructor.
Qed.

(** Everything a returning run does, in one place. *)
Lemma returning_run a st st' :
  main a st = (Returned tt, st') →
  ∃ label path rows outs l,
    model_split_label !! model_name a = Some label ∧
    path ≠ [] ∧
    log st' = log st
      ++ Ev (ResolveOutputFile (output_file a)) (Ok (Some path)) :: l ∧
    csv_writes l = [([(«"prompts"», rows); («"results"», outs)], path, false)] ∧
    template_calls l
      = map (λ row, (row, model_name a, sys_prefix_flag a, finetune_data_path a))
          rows ∧
    Forall2 (λ d output, truncate_output d label = Ok output) (decoded l) outs.
Proof.
  intros Hrun. apply main_Returned in Hrun
    as (out & st1 & d & pth & st2 & label & p & st3 & pl & pr & st4 & rt & st5
        & rows & st6 & vars & st7 & Hout & Hloc & Hlabel & Hprec & Hq & Hload
        & Hds & Hloop & Hsave).
  apply resolve_output_Returned in Hout as (Hne & l1 & Hl1 & Hq1 & Ho1).
  apply quiet_summary in Hq1 as (Hw1 & _ & _).
  apply outside_loop_summary in Ho1 as (Ht1 & Hd1).
  destruct (emits_Returned _ _ _ _ _ (locate_checkpoints_quiet a) Hloc)
    as (l2 & Hl2 & [Hw2 _]%quiet_summary).
  destruct (emits_Returned _ _ _ _ _ (locate_checkpoints_outside a) Hloc)
    as (l2' & Hl2' & [Ht2 Hd2]%outside_loop_summary).
  rewrite Hl2 in Hl2'. apply app_inv_head in Hl2' as <-.
  destruct (emits_Returned _ _ _ _ _ (resolve_precision_quiet a) Hprec)
    as (l3 & Hl3 & [Hw3 _]%quiet_summary).
  destruct (emits_Returned _ _ _ _ _ (resolve_precision_outside a) Hprec)
    as (l3' & Hl3' & [Ht3 Hd3]%outside_loop_summary).
  rewrite Hl3 in Hl3'. apply app_inv_head in Hl3' as <-.
  destruct (emits_Returned _ _ _ _ _ (quantization_plugins_quiet a p) Hq)
    as (l4 & Hl4 & [Hw4 _]%quiet_summary).
  destruct (emits_Returned _ _ _ _ _ (quantization_plugins_outside a p) Hq)
    as (l4' & Hl4' & [Ht4 Hd4]%outside_loop_summary).
  rewrite Hl4 in Hl4'. apply app_inv_head in Hl4' as <-.
  destruct (emits_Returned _ _ _ _ _ (load_model_quiet a d pth pl pr) Hload)
    as (l5 & Hl5 & [Hw5 _]%quiet_summary).
  destruct (emits_Returned _ _ _ _ _ (load_model_outside a d pth pl pr) Hload)
    as (l5' & Hl5' & [Ht5 Hd5]%outside_loop_summary).
  rewrite Hl5 in Hl5'. apply app_inv_head in Hl5' as <-.
  destruct (emits_Returned _ _ _ _ _ (load_dataset_outside a) Hds)
    as (l6' & Hl6' & [Ht6 Hd6]%outside_loop_summary).
  apply load_dataset_Returned in Hds as (l6 & din & col & Hl6 & _ & _ & Hw6 & _).
  rewrite Hl6 in Hl6'. apply app_inv_head in Hl6' as <-.
  unfold generation_loop in Hloop.
  pose proof Hloop as Hlen. apply loop_Returned in Hlen
    as (outs' & l7' & _ & Hp' & Hlen & _).
  apply loop_trace in Hloop as (outs & l7 & Hs & Hp & Hl7 & Ht7 & Hd7 & Hw7).
  simpl in Hs, Hp, Hp'. rewrite Hp in Hp'. subst outs'.
  rewrite Hs, Hp in Hsave.
  destruct (emits_Returned _ _ _ _ _ (save_outside rows outs out) Hsave)
    as (l8' & Hl8' & [Ht8 Hd8]%outside_loop_summary).
  apply save_Returned in Hsave as (post & Hl8 & Hw8 & _); [|by rewrite Hlen].
  rewrite Hl8 in Hl8'. apply app_inv_head in Hl8' as <-.
  exists label, out, rows, outs. eexists.
  split; [done|]. split; [done|]. split.
  { rewrite Hl8, Hl7, Hl6, Hl5, Hl4, Hl3, Hl2, Hl1, <- !app_assoc. simpl.
    reflexivity. }
  rewrite !csv_writes_app, !template_calls_app, !decoded_app.
  simpl in Ht8, Hd8.
  rewrite Hw1, Hw2, Hw3, Hw4, Hw5, Hw6, Hw7, Ht1, Ht2, Ht3, Ht4, Ht5, Ht6, Ht7,
    Hd1, Hd2, Hd3, Hd4, Hd5, Hd6.
  simpl. rewrite Hw8, Ht8, Hd8, !app_nil_r. done.
Qed.

(** X9: in every run that returns, the first call resolved the [output_file]
    argument to a non-empty path, and the one CSV write goes to that resolved
    path, with [index=False]. *)
Theorem csv_goes_to_resolved_path a st st' :
  main a st = (Returned tt, st') →
  ∃ path frame l,
    path ≠ [] ∧
    log st' = log st
      ++ Ev (ResolveOutputFile (output_file a)) (Ok (Some path)) :: l ∧
    csv_writes l = [(frame, path, false)].
Proof.
  intros Hrun. apply returning_run in Hrun
    as (label & path & rows & outs & l & _ & Hne & Hl & Hw & _).
  by exists path, [(«"prompts"», rows); («"results"», outs)], l.
Qed.

(** X10: in every run that returns, the [results] column of the CSV is, cell by
    cell and in order, the truncation (line 137, with the split marker of the
    model) of the texts that [tokenizer.decode] answered. *)
Theorem results_are_truncated_decodings a st st' :
  main a st = (Returned tt, st') →
  ∃ label l prompts outs path,
    model_split_label !! model_name a = Some label ∧
    log st' = log st ++ l ∧
    csv_writes l = [([(«"prompts"», prompts); («"results"», outs)], path, false)] ∧
    Forall2 (λ d output, truncate_output d label = Ok output) (decoded l) outs.
Proof.
  intros Hrun. apply returning_run in Hrun
    as (label & path & rows & outs & l & Hlabel & _ & Hl & Hw & _ & Hd).
  exists label. eexists. exists rows, outs, path.
  split; [done|]. split; [exact Hl|]. done.
Qed.

(** X11: in every run that returns, the prompt template is applied exactly
    once per row of the CSV's [prompts] column, in order, to that row's text. *)
Theorem every_row_rendered_once a st st' :
  main a st = (Returned tt, st') →
  ∃ l prompts outs path,
    log st' = log st ++ l ∧
    csv_writes l = [([(«"prompts"», prompts); («"results"», outs)], path, false)] ∧
    template_calls l
      = map (λ row, (row, model_name a, sys_prefix_flag a, finetune_data_path a))
          prompts.
Proof.
  intros Hrun. apply returning_run in Hrun
    as (label & path & rows & outs & l & _ & _ & Hl & Hw & Ht & _).
  eexists. exists rows, outs, path. split; [exact Hl|]. done.
Qed.

(** *** [save_inference_results] on any two lists *)

Lemma zip_fst_take {A B} (l : list A) (k : list B) :
  (zip l k).*1 = take (length k) l.
Proof.
  revert k. induction l as [|x l IH]; intros [|y k]; simpl; [done..|].
  by rewrite IH.
Qed.

Lemma zip_snd_take {A B} (l : list A) (k : list B) :
  (zip l k).*2 = take (length l) k.
Proof.
  revert k. induction l as [|x l IH]; intros [|y k]; simpl; [done..|].
  by rewrite IH.
Qed.

Lemma save_unfold ss ps path st :
  save_inference_results ss ps path st =
  bind (ext (ToCsv [(«"prompts"», take (length ps) ss);
                    («"results"», take (length ss) ps)] path false))
    (λ _, bind (ext (Print [PStr «"***** Save inference results *****"»]))
    (λ _, bind (ext (Print [PStr («"Sucessful save predictions to "» ++ path)]))
    (λ _, ext (Print [PStr («"CSV_PATH: "» ++ path)])))) st.
Proof.
  unfold save_inference_results. unfold bind at 1. rewrite zip_loop. simpl.
  rewrite zip_fst_take, zip_snd_take, !length_take.
  rewrite (Nat.min_comm (length ss)), Nat.eqb_refl. reflexivity.
Qed.

(** X12: [save_inference_results] never fails to build its frame: whatever the
    lengths of the two lists, its first call is [to_csv], with [index=False],
    on the columns [prompts] and [results] cut to the length of the shorter
    list; it makes no other write. *)
Theorem save_writes_zipped ss ps path st :
  ∃ r rest,
    log (save_inference_results ss ps path st).2
    = log st ++ Ev (ToCsv [(«"prompts"», take (length ps) ss);
                           («"results"», take (length ss) ps)] path false) r
        :: rest ∧
    length (take (length ps) ss) = length (take (length ss) ps) ∧
    csv_writes rest = [].
Proof.
  rewrite save_unfold. unfold bind at 1. rewrite ext_run.
  set (c := ToCsv _ _ _).
  destruct (handle c (world st)) as [[[]|e] w] eqn:Hc; simpl.
  - set (k := bind _ _).
    assert (emits quiet k) as Hk by (subst k; walk_emits ltac:(done)).
    destruct (Hk (State w (log st ++ [Ev c (Ok ())]))) as (l & Hl & Hq).
    exists (Ok tt), l. rewrite Hl. simpl. rewrite <- app_assoc.
    split; [done|]. split; [rewrite !length_take; lia|].
    by apply quiet_summary in Hq as [? _].
  - exists (Err e), []. split; [done|]. split; [rewrite !length_take; lia|done].
Qed.

(** *** What [main] raises *)

Lemma raises_ret {A} (a : A) : raises_cleanly (ret a).
Proof. intros st e st'. unfold ret. discriminate. Qed.

Lemma raises_exit {A} c : raises_cleanly (@exit _ _ A c).
Proof. intros st e st'. unfold exit. discriminate. Qed.

Lemma raises_own {A} e : own_exception e → raises_cleanly (@raise _ _ A e).
Proof. intros Hown st e' st' [= <- <-]. by left. Qed.

Lemma raises_getitem {V} (d : gmap str V) k : raises_cleanly (lift (getitem d k)).
Proof.
  unfold getitem. destruct (d !! k); [apply raises_ret|].
  apply raises_own. left. by eexists.
Qed.

Lemma column_Err (df : frame) column_name e :
  column df column_name = Err e → e = KeyError column_name.
Proof.
  induction df as [|[name cells] df IH]; simpl; [by intros [= <-]|].
  case_decide; [discriminate|done].
Qed.

Lemma raises_column (df : frame) column_name :
  raises_cleanly (lift (column df column_name)).
Proof.
  destruct (column df column_name) as [cells|e] eqn:Hc; [apply raises_ret|].
  apply column_Err in Hc as ->. apply raises_own. left. by eexists.
Qed.

Lemma raises_ext {T} (c : call T) : raises_cleanly (ext c).
Proof.
  intros st e st'. rewrite ext_run.
  destruct (handle c (world st)) as [[v|e'] w]; simpl; [discriminate|].
  intros [= <- <-]. right. by exists T, c, (log st).
Qed.

Lemma raises_bind_post {A B} (Q : A → Prop) (m : M A) (f : A → M B) :
  raises_cleanly m → returns Q m → (∀ a, Q a → raises_cleanly (f a)) →
  raises_cleanly (bind m f).
Proof.
  intros Hm HQ Hf st e st'. unfold bind.
  destruct (m st) as [[a|e'|c] st1] eqn:Hrun.
  - apply Hf. by eapply HQ.
  - intros [= <- <-]. by eapply Hm.
  - discriminate.
Qed.

Lemma raises_bind {A B} (m : M A) (f : A → M B) :
  raises_cleanly m → (∀ a, raises_cleanly (f a)) → raises_cleanly (bind m f).
Proof.
  intros Hm Hf. apply (raises_bind_post (λ _, True)); [done| |auto].
  by intros ? ? ? ?.
Qed.

Lemma raises_for_each {X V} (xs : list X) (body : X → V → M V) vars :
  (∀ x v, raises_cleanly (body x v)) → raises_cleanly (for_each xs body vars).
Proof.
  intros Hbody. revert vars. induction xs as [|x xs IH]; intros vars; simpl.
  - apply raises_ret.
  - apply raises_bind; [apply Hbody | apply IH].
Qed.

Lemma raises_save ss ps path :
  raises_cleanly (save_inference_results ss ps path).
Proof.
  intros st e st' Heq. rewrite save_unfold in Heq. revert Heq.
  match goal with |- ?m st = _ → _ => enough (raises_cleanly m) as Hm by apply Hm end.
  repeat (apply raises_bind; [apply raises_ext|intros ?]). apply raises_ext.
Qed.

Lemma getitem_split_label_post a :
  returns (λ label : str, ∃ c sep', label = c :: sep')
    (lift (getitem model_split_label (model_name a))).
Proof.
  intros st label st' Heq. apply lift_Returned in Heq as [Heq _].
  unfold getitem in Heq.
  destruct (model_split_label !! model_name a) as [l|] eqn:Hl; [|done].
  injection Heq as ->. by eapply split_label_nonempty.
Qed.

Ltac step_raises :=
  first
    [ apply raises_ret | apply raises_exit | apply raises_ext
    | apply raises_getitem | apply raises_column
    | apply raises_bind; [|intros ?]
    | apply raises_for_each; intros ? ?
    | match goal with
      | |- raises_cleanly (match ?x with _ => _ end) => destruct x
      end ].

(** X13: [main] raises nothing of its own but the [KeyError] of a failed
    look-up and the [ValueError] of the quantization check: any other
    exception is the answer of the library call that the run made last, passed
    on unchanged.  In particular the [split] of line 137 and the frame of line
    149 never raise. *)
Theorem failures_are_lookups_or_library a st e st' :
  main a st = (Raised e, st') →
  own_exception e ∨ raised_by_last_call e (log st').
Proof.
  revert st e st'. change (raises_cleanly (main a)). unfold main.
  apply raises_bind; [unfold resolve_output; repeat step_raises|intros out].
  apply raises_bind; [unfold locate_checkpoints; repeat step_raises|intros [d pth]].
  eapply raises_bind_post;
    [apply raises_getitem|apply getitem_split_label_post|].
  intros label (c & sep' & ->).
  apply raises_bind; [unfold resolve_precision; repeat step_raises|intros p].
  apply raises_bind.
  { unfold quantization_plugins. repeat step_raises.
    apply raises_own. by right. }
  intros [pl pr].
  apply raises_bind; [unfold load_model; repeat step_raises|intros rt].
  apply raises_bind; [unfold load_dataset; repeat step_raises|intros rows].
  apply raises_bind; [|intros vars; apply raises_save].
  unfold generation_loop, loop_body, generate_repeat.
  repeat step_raises.
Qed.

(** *** How far a run gets *)

Lemma bind_cases {A B} (m : M A) (f : A → M B) st :
  (∃ a st1, m st = (Returned a, st1) ∧ bind m f st = f a st1) ∨
  (bind m f st).2 = (m st).2.
Proof.
  unfold bind. destruct (m st) as [[a|e|c] st1]; [left; eauto|by right..].
Qed.

Lemma bind_lift_Ok {A B} (v : A) (f : A → M B) st :
  bind (lift (Ok v)) f st = f v st.
Proof. reflexivity. Qed.

Lemma bind_lift_Err {A B} e (f : A → M B) st :
  bind (lift (Err e)) f st = (Raised e, st).
Proof. reflexivity. Qed.

Lemma quiet_before_loop l : Forall quiet l → Forall before_loop l.
Proof.
  intros Hq. eapply Forall_impl; [exact Hq|]. by intros e (? & ? & ?).
Qed.

Lemma before_loop_summary l :
  Forall before_loop l → csv_writes l = [] ∧ generations l = 0.
Proof.
  induction 1 as [|[T c r] l [Hg Hw] _ [IHw IHg]]; [done|].
  unfold generations in *. destruct c; simpl in *; try done.
Qed.

Lemma done_ok_app_l p l1 l2 : done_ok p l1 → done_ok p (l1 ++ l2).
Proof. unfold done_ok. rewrite existsb_app. by intros ->. Qed.

Lemma done_ok_app_r p l1 l2 : done_ok p l2 → done_ok p (l1 ++ l2).
Proof. unfold done_ok. rewrite existsb_app. intros ->. apply orb_true_r. Qed.

Lemma load_dataset_before_loop a : emits before_loop (load_dataset a).
Proof. unfold load_dataset. walk_emits ltac:(done). Qed.

Lemma ext_Returned_log {T} (c : call T) st v st' :
  ext c st = (Returned v, st') → log st' = log st ++ [Ev c (Ok v)].
Proof. intros Heq. by apply ext_Returned in Heq as (w & _ & ->). Qed.

Lemma load_model_done a d pth pl pr st rt st' :
  load_model a d pth pl pr st = (Returned rt, st') →
  ∃ l, log st' = log st ++ l ∧ Forall before_loop l ∧
       done_ok is_model_construction l ∧ done_ok is_load_state_dict l ∧
       done_ok is_fabric_setup l.
Proof.
  unfold load_model. intros Heq.
  repeat (let Hx := fresh "Hx" in
          apply bind_Returned in Heq as (? & ? & Hx & Heq);
          apply ext_Returned_log in Hx).
  injection Heq as _ <-. eexists. split.
  { repeat match goal with
           | Hx : log ?s = _ |- context [log ?s] => rewrite Hx; clear Hx
           end.
    rewrite <- !app_assoc. reflexivity. }
  simpl. split; [by repeat constructor|]. by repeat split.
Qed.

Lemma load_dataset_done a st rows st' :
  load_dataset a st = (Returned rows, st') →
  ∃ l din column_name,
    log st' = log st ++ l ∧ Forall before_loop l ∧
    csv_reads l = [din] ∧ column din column_name = Ok rows ∧
    done_ok is_seed_1234 l ∧ done_ok is_read_csv l.
Proof.
  unfold load_dataset. intros Heq.
  apply bind_Returned in Heq as ([] & st1 & H1 & Heq).
  apply bind_Returned in Heq as (config & st2 & H2 & Heq).
  apply bind_Returned in Heq as ([dataset_path column_name] & st3 & H3 & Heq).
  apply bind_Returned in Heq as (din & st4 & H4 & Heq).
  apply ext_Returned in H1 as (w1 & _ & ->).
  apply ext_Returned in H2 as (w2 & _ & ->).
  apply ext_Returned in H3 as (w3 & _ & ->).
  apply ext_Returned in H4 as (w4 & _ & ->).
  destruct (column din column_name) as [cells|e] eqn:Hcol; [|discriminate].
  injection Heq as <- <-. simpl. eexists _, din, column_name.
  split; [rewrite <- !app_assoc; reflexivity|].
  split; [by repeat constructor|]. by rewrite Hcol.
Qed.

Ltac next_phase st x st1 Hret Hstop :=
  match goal with
  | |- context [bind ?m ?f st] =>
      destruct (bind_cases m f st) as [(x & st1 & Hret & ->)|Hstop];
      cbv beta
  end.

(** A run either stops before the generation loop, having made only calls
    that neither generate nor write, or reaches the loop with the model
    built, its weights loaded, the seed set and the dataset read. *)
Lemma run_anatomy a st :
  (∃ l, log (main a st).2 = log st ++ l ∧ Forall before_loop l) ∨
  (∃ out label rt rows st6 l din column_name,
     log st6 = log st ++ l ∧ Forall before_loop l ∧
     csv_reads l = [din] ∧ column din column_name = Ok rows ∧
     done_ok is_model_construction l ∧ done_ok is_load_state_dict l ∧
     done_ok is_fabric_setup l ∧ done_ok is_seed_1234 l ∧
     done_ok is_read_csv l ∧
     main a st
     = bind (generation_loop a rt label rows)
         (λ vars, save_inference_results (sources_sequences vars)
                    (predicted_sequences vars) out) st6).
Proof.
  unfold main.
  next_phase st out st1 Hout Hstop.
  2: { left. rewrite Hstop. destruct (resolve_output_quiet a st) as (l & Hl & HP).
       exists l. split; [done|]. by apply quiet_before_loop. }
  destruct (emits_Returned _ _ _ _ _ (resolve_output_quiet a) Hout)
    as (l1 & Hl1 & HP1%quiet_before_loop).
  pose proof (emits_Returned _ _ _ _ _ (resolve_output_quiet a) Hout)
    as (l1' & Hl1' & [_ [Hr1 _]]%quiet_summary).
  rewrite Hl1 in Hl1'. apply app_inv_head in Hl1' as <-.
  next_phase st1 paths st2 Hloc Hstop; [destruct paths as [d pth]|].
  2: { left. rewrite Hstop.
       destruct (locate_checkpoints_quiet a st1) as (l & Hl & HP%quiet_before_loop).
       exists (l1 ++ l). rewrite Hl, Hl1, app_assoc. split; [done|].
       by apply Forall_app. }
  destruct (emits_Returned _ _ _ _ _ (locate_checkpoints_quiet a) Hloc)
    as (l2 & Hl2 & HP2%quiet_before_loop).
  pose proof (emits_Returned _ _ _ _ _ (locate_checkpoints_quiet a) Hloc)
    as (l2' & Hl2' & [_ [Hr2 _]]%quiet_summary).
  rewrite Hl2 in Hl2'. apply app_inv_head in Hl2' as <-.
  unfold getitem.
  destruct (model_split_label !! model_name a) as [label|] eqn:Hlabel.
  2: { left. rewrite bind_lift_Err. exists (l1 ++ l2). simpl.
       rewrite Hl2, Hl1, app_assoc. split; [done|]. by apply Forall_app. }
  rewrite bind_lift_Ok.
  next_phase st2 p st3 Hprec Hstop.
  2: { left. rewrite Hstop.
       destruct (resolve_precision_quiet a st2) as (l & Hl & HP%quiet_before_loop).
       exists (l1 ++ l2 ++ l). rewrite Hl, Hl2, Hl1, <- !app_assoc.
       split; [done|]. by repeat apply Forall_app_2. }
  destruct (emits_Returned _ _ _ _ _ (resolve_precision_quiet a) Hprec)
    as (l3 & Hl3 & HP3%quiet_before_loop).
  pose proof (emits_Returned _ _ _ _ _ (resolve_precision_quiet a) Hprec)
    as (l3' & Hl3' & [_ [Hr3 _]]%quiet_summary).
  rewrite Hl3 in Hl3'. apply app_inv_head in Hl3' as <-.
  next_phase st3 pp st4 Hq Hstop; [destruct pp as [pl pr]|].
  2: { left. rewrite Hstop.
       destruct (quantization_plugins_quiet a p st3)
         as (l & Hl & HP%quiet_before_loop).
       exists (l1 ++ l2 ++ l3 ++ l). rewrite Hl, Hl3, Hl2, Hl1, <- !app_assoc.
       split; [done|]. by repeat apply Forall_app_2. }
  destruct (emits_Returned _ _ _ _ _ (quantization_plugins_quiet a p) Hq)
    as (l4 & Hl4 & HP4%quiet_before_loop).
  pose proof (emits_Returned _ _ _ _ _ (quantization_plugins_quiet a p) Hq)
    as (l4' & Hl4' & [_ [Hr4 _]]%quiet_summary).
  rewrite Hl4 in Hl4'. apply app_inv_head in Hl4' as <-.
  next_phase st4 rt st5 Hload Hstop.
  2: { left. rewrite Hstop.
       destruct (load_model_quiet a d pth pl pr st4)
         as (l & Hl & HP%quiet_before_loop).
       exists (l1 ++ l2 ++ l3 ++ l4 ++ l).
       rewrite Hl, Hl4, Hl3, Hl2, Hl1, <- !app_assoc.
       split; [done|]. by repeat apply Forall_app_2. }
  pose proof (emits_Returned _ _ _ _ _ (load_model_quiet a d pth pl pr) Hload)
    as (l5' & Hl5' & [_ [Hr5 _]]%quiet_summary).
  apply load_model_done in Hload as (l5 & Hl5 & HP5 & Hgpt & Hsd & Hfs).
  rewrite Hl5 in Hl5'. apply app_inv_head in Hl5' as <-.
  next_phase st5 rows st6 Hds Hstop.
  2: { left. rewrite Hstop.
       destruct (load_dataset_before_loop a st5) as (l & Hl & HP).
       exists (l1 ++ l2 ++ l3 ++ l4 ++ l5 ++ l).
       rewrite Hl, Hl5, Hl4, Hl3, Hl2, Hl1, <- !app_assoc.
       split; [done|]. by repeat apply Forall_app_2. }
  apply load_dataset_done in Hds
    as (l6 & din & column_name & Hl6 & HP6 & Hr6 & Hcol & Hseed & Hread).
  right. exists out, label, rt, rows, st6,
    (l1 ++ l2 ++ l3 ++ l4 ++ l5 ++ l6), din, column_name.
  split; [by rewrite Hl6, Hl5, Hl4, Hl3, Hl2, Hl1, <- !app_assoc|].
  split; [by repeat apply Forall_app_2|].
  split; [by rewrite !csv_reads_app, Hr1, Hr2, Hr3, Hr4, Hr5, Hr6|].
  split; [done|].
  repeat split; try done;
    repeat first [ done | by apply done_ok_app_l | apply done_ok_app_r ].
Qed.

Lemma app_eq_prefix (P : event → Prop) pre e post l l' :
  pre ++ e :: post = l ++ l' → ¬ P e → Forall P l → ∃ pre', pre = l ++ pre'.
Proof.
  intros Heq HnP HP. revert pre Heq.
  induction HP as [|x l Hx HP IH]; intros pre Heq; [by exists pre|].
  destruct pre as [|y pre]; simpl in Heq.
  - injection Heq as <- _. done.
  - injection Heq as -> Heq. destruct (IH _ Heq) as [pre' ->]. by exists pre'.
Qed.

Lemma loop_and_save_extend a rt label rows out :
  emits (λ _, True)
    (bind (generation_loop a rt label rows)
       (λ vars, save_inference_results (sources_sequences vars)
                  (predicted_sequences vars) out)).
Proof.
  unfold generation_loop, loop_body, generate_repeat, save_inference_results.
  walk_emits ltac:(exact I).
Qed.

Lemma generation_loop_no_write a rt label rows :
  emits (λ e, is_to_csv e = false) (generation_loop a rt label rows).
Proof.
  unfold generation_loop, loop_body, generate_repeat.
  walk_emits ltac:(first [reflexivity | unfold template_call; by case_decide]).
Qed.

Lemma no_write_summary l :
  Forall (λ e, is_to_csv e = false) l → csv_writes l = [].
Proof.
  induction 1 as [|[T c r] l Hw _ IH]; [done|].
  destruct c; simpl in *; done.
Qed.

(** X14: no generation step is ever made before the model has been
    constructed, its weights loaded into it, the model set up by Fabric, the
    seed set to 1234 and the dataset read: in every run, each of these calls
    has been made and has answered before the first generation step. *)
Theorem generation_needs_setup a st pre e post :
  log (main a st).2 = log st ++ pre ++ e :: post →
  is_generate e = true →
  done_ok is_model_construction pre ∧ done_ok is_load_state_dict pre ∧
  done_ok is_fabric_setup pre ∧ done_ok is_seed_1234 pre ∧
  done_ok is_read_csv pre.
Proof.
  intros Hlog Hgen.
  destruct (run_anatomy a st)
    as [(l & Hl & HP)
       |(out & label & rt & rows & st6 & l & din & col & Hl & HP & _ & _
         & Hgpt & Hsd & Hfs & Hseed & Hread & Hmain)].
  - rewrite Hl in Hlog. apply app_inv_head in Hlog as ->.
    apply Forall_app in HP as [_ HP]. apply Forall_cons in HP as [[He _] _].
    congruence.
  - rewrite Hmain in Hlog.
    destruct (loop_and_save_extend a rt label rows out st6) as (l' & Hl' & _).
    rewrite Hl', Hl, <- app_assoc in Hlog. apply app_inv_head in Hlog.
    symmetry in Hlog.
    apply (app_eq_prefix before_loop) in Hlog as [pre' ->]; [|by intros [? _]; congruence|done].
    repeat split; by apply done_ok_app_l.
Qed.

(** X15: a run never saves partial results.  In every run, whether it returns
    or fails, either [to_csv] is not called at all, or it is called once,
    after one generation step for every row of the column that was read, on
    the frame that holds all these rows and one result for each. *)
Theorem no_partial_results a st :
  ∃ l, log (main a st).2 = log st ++ l ∧
    (csv_writes l = [] ∨
     ∃ din column_name rows outs path pre r post,
       l = pre ++
           Ev (ToCsv [(«"prompts"», rows); («"results"», outs)] path false) r
           :: post ∧
       csv_reads pre = [din] ∧ column din column_name = Ok rows ∧
       length outs = length rows ∧ generations pre = length rows ∧
       csv_writes pre = [] ∧ csv_writes post = []).
Proof.
  destruct (run_anatomy a st)
    as [(l & Hl & HP)
       |(out & label & rt & rows & st6 & l & din & col & Hl & HP & Hr & Hcol
         & _ & _ & _ & _ & _ & Hmain)].
  - exists l. split; [done|]. left. by apply before_loop_summary in HP as [? _].
  - apply before_loop_summary in HP as [Hw Hg]. rewrite Hmain.
    destruct (bind_cases (generation_loop a rt label rows)
                (λ vars, save_inference_results (sources_sequences vars)
                           (predicted_sequences vars) out) st6)
      as [(vars & st7 & Hloop & ->)|Hstop].
    + unfold generation_loop in Hloop.
      apply loop_Returned in Hloop
        as (outs & l7 & Hs & Hp & Hlen & Hl7 & Hw7 & Hr7 & Hg7).
      simpl in Hs, Hp.
      destruct (save_writes_zipped (sources_sequences vars)
                  (predicted_sequences vars) out st7)
        as (r & rest & Hl8 & _ & Hw8).
      exists (l ++ l7 ++ Ev (ToCsv [(«"prompts"», rows); («"results"», outs)]
                               out false) r :: rest).
      split.
      { rewrite Hl8, Hs, Hp, !take_ge by lia.
        by rewrite Hl7, Hl, <- !app_assoc. }
      right. exists din, col, rows, outs, out, (l ++ l7), r, rest.
      rewrite <- app_assoc, csv_reads_app, generations_app, csv_writes_app,
        Hr, Hr7, Hg, Hg7, Hw, Hw7.
      done.
    + rewrite Hstop.
      destruct (generation_loop_no_write a rt label rows st6) as (l7 & Hl7 & HP7).
      exists (l ++ l7). rewrite Hl7, Hl, <- app_assoc. split; [done|].
      left. rewrite csv_writes_app, Hw. by apply no_write_summary.
Qed.

(** *** From the dataset file to the CSV *)

(** [frame[column_name]] is the first column of that name. *)
Lemma column_first (df : frame) column_name cells :
  column df column_name = Ok cells →
  ∃ before after,
    df = before ++ (column_name, cells) :: after ∧
    ∀ cells', (column_name, cells') ∉ before.
Proof.
  induction df as [|[name cells0] df IH]; simpl; [done|].
  case_decide as Hd.
  - intros [= <-]. subst. exists [], df. split; [done|].
    intros cells' Hin. by apply elem_of_nil in Hin.
  - intros Hc. destruct (IH Hc) as (before & after & -> & Hno).
    exists ((name, cells0) :: before), after. split; [done|].
    intros cells' [Heq|Hin]%elem_of_cons; [congruence|by eapply Hno].
Qed.

Lemma load_dataset_trace a st rows st' :
  load_dataset a st = (Returned rows, st') →
  ∃ config dataset_path column_name din,
    log st' = log st ++
      [Ev (SeedEverything 1234) (Ok tt);
       Ev (LoadConfig «"configs/infer_modelpath_datasetpath_setting.yaml"»)
         (Ok config);
       Ev (GetDatasetInfo (evaluation_dataset_name a) config)
         (Ok (dataset_path, column_name));
       Ev (ReadCsv dataset_path) (Ok din)] ∧
    column din column_name = Ok rows.
Proof.
  unfold load_dataset. intros Heq.
  apply bind_Returned in Heq as ([] & st1 & H1 & Heq).
  apply bind_Returned in Heq as (config & st2 & H2 & Heq).
  apply bind_Returned in Heq as ([dataset_path column_name] & st3 & H3 & Heq).
  apply bind_Returned in Heq as (din & st4 & H4 & Heq).
  apply ext_Returned in H1 as (w1 & _ & ->).
  apply ext_Returned in H2 as (w2 & _ & ->).
  apply ext_Returned in H3 as (w3 & _ & ->).
  apply ext_Returned in H4 as (w4 & _ & ->).
  destruct (column din column_name) as [cells|e] eqn:Hcol; [|discriminate].
  injection Heq as <- <-. simpl. exists config, dataset_path, column_name, din.
  rewrite <- !app_assoc. by rewrite Hcol.
Qed.

(** A returning run, from the resolution of the output path through the
    reading of the dataset and the loop to the one write. *)
Lemma returning_run_dataset a st st' :
  main a st = (Returned tt, st') →
  ∃ path config dataset_path column_name din rows outs l0 l1 post,
    path ≠ [] ∧
    log st' = log st ++
      (Ev (ResolveOutputFile (output_file a)) (Ok (Some path)) :: l0) ++
      Ev (GetDatasetInfo (evaluation_dataset_name a) config)
        (Ok (dataset_path, column_name))
      :: Ev (ReadCsv dataset_path) (Ok din)
      :: l1 ++
      Ev (ToCsv [(«"prompts"», rows); («"results"», outs)] path false) (Ok tt)
      :: post ∧
    column din column_name = Ok rows ∧
    length outs = length rows ∧
    (csv_reads l0 = [] ∧ csv_writes l0 = [] ∧ generations l0 = 0 ∧
     template_calls l0 = []) ∧
    (csv_reads l1 = [] ∧ csv_writes l1 = [] ∧ generations l1 = length rows ∧
     template_calls l1
     = map (λ row, (row, model_name a, sys_prefix_flag a, finetune_data_path a))
         rows) ∧
    (csv_writes post = [] ∧ generations post = 0 ∧ template_calls post = []).
Proof.
  intros Hrun. apply main_Returned in Hrun
    as (out & st1 & d & pth & st2 & label & p & st3 & pl & pr & st4 & rt & st5
        & rows & st6 & vars & st7 & Hout & Hloc & Hlabel & Hprec & Hq & Hload
        & Hds & Hloop & Hsave).
  apply resolve_output_Returned in Hout as (Hne & l1 & Hl1 & Hq1 & Ho1).
  apply quiet_summary in Hq1 as (Hw1 & Hr1 & Hg1).
  apply outside_loop_summary in Ho1 as (Ht1 & _).
  destruct (emits_Returned _ _ _ _ _ (locate_checkpoints_quiet a) Hloc)
    as (l2 & Hl2 & (Hw2 & Hr2 & Hg2)%quiet_summary).
  destruct (emits_Returned _ _ _ _ _ (locate_checkpoints_outside a) Hloc)
    as (l2' & Hl2' & [Ht2 _]%outside_loop_summary).
  rewrite Hl2 in Hl2'. apply app_inv_head in Hl2' as <-.
  destruct (emits_Returned _ _ _ _ _ (resolve_precision_quiet a) Hprec)
    as (l3 & Hl3 & (Hw3 & Hr3 & Hg3)%quiet_summary).
  destruct (emits_Returned _ _ _ _ _ (resolve_precision_outside a) Hprec)
    as (l3' & Hl3' & [Ht3 _]%outside_loop_summary).
  rewrite Hl3 in Hl3'. apply app_inv_head in Hl3' as <-.
  destruct (emits_Returned _ _ _ _ _ (quantization_plugins_quiet a p) Hq)
    as (l4 & Hl4 & (Hw4 & Hr4 & Hg4)%quiet_summary).
  destruct (emits_Returned _ _ _ _ _ (quantization_plugins_outside a p) Hq)
    as (l4' & Hl4' & [Ht4 _]%outside_loop_summary).
  rewrite Hl4 in Hl4'. apply app_inv_head in Hl4' as <-.
  destruct (emits_Returned _ _ _ _ _ (load_model_quiet a d pth pl pr) Hload)
    as (l5 & Hl5 & (Hw5 & Hr5 & Hg5)%quiet_summary).
  destruct (emits_Returned _ _ _ _ _ (load_model_outside a d pth pl pr) Hload)
    as (l5' & Hl5' & [Ht5 _]%outside_loop_summary).
  rewrite Hl5 in Hl5'. apply app_inv_head in Hl5' as <-.
  apply load_dataset_trace in Hds
    as (config & dataset_path & column_name & din & Hl6 & Hcol).
  unfold generation_loop in Hloop.
  pose proof Hloop as Hloop'. apply loop_Returned in Hloop'
    as (outs' & l7' & _ & Hp' & Hlen & Hl7' & _ & Hr7 & Hg7).
  apply loop_trace in Hloop as (outs & l7 & Hs & Hp & Hl7 & Ht7 & _ & Hw7).
  rewrite Hl7 in Hl7'. apply app_inv_head in Hl7' as <-.
  simpl in Hs, Hp, Hp'. rewrite Hp in Hp'. subst outs'.
  rewrite Hs, Hp in Hsave.
  destruct (emits_Returned _ _ _ _ _ (save_outside rows outs out) Hsave)
    as (l8' & Hl8' & [Ht8 _]%outside_loop_summary).
  apply save_Returned in Hsave as (post & Hl8 & Hw8 & Hg8); [|by rewrite Hlen].
  rewrite Hl8 in Hl8'. apply app_inv_head in Hl8' as <-. simpl in Ht8.
  exists out, config, dataset_path, column_name, din, rows, outs,
    (l1 ++ l2 ++ l3 ++ l4 ++ l5 ++
       [Ev (SeedEverything 1234) (Ok tt);
        Ev (LoadConfig «"configs/infer_modelpath_datasetpath_setting.yaml"»)
          (Ok config)]),
    l7, post.
  split; [done|]. split.
  { rewrite Hl8, Hl7, Hl6, Hl5, Hl4, Hl3, Hl2, Hl1. simpl.
    rewrite <- !app_assoc. simpl. reflexivity. }
  split; [done|]. split; [done|].
  rewrite !csv_reads_app, !csv_writes_app, !generations_app, !template_calls_app.
  rewrite Hw1, Hw2, Hw3, Hw4, Hw5, Hr1, Hr2, Hr3, Hr4, Hr5, Hg1, Hg2, Hg3, Hg4,
    Hg5, Ht1, Ht2, Ht3, Ht4, Ht5.
  done.
Qed.

(** *** Precision, quantization plugin and Fabric (lines 72-82) *)

Lemma default_precision_calls_app l1 l2 :
  default_precision_calls (l1 ++ l2)
  = default_precision_calls l1 ++ default_precision_calls l2.
Proof.
  induction l1 as [|[T c r] l1 IH]; [done|].
  destruct c; simpl; by rewrite ?IH.
Qed.

Lemma plugin_calls_app l1 l2 :
  plugin_calls (l1 ++ l2) = plugin_calls l1 ++ plugin_calls l2.
Proof.
  induction l1 as [|[T c r] l1 IH]; [done|].
  destruct c; simpl; by rewrite ?IH.
Qed.

Lemma fabric_calls_app l1 l2 :
  fabric_calls (l1 ++ l2) = fabric_calls l1 ++ fabric_calls l2.
Proof.
  induction l1 as [|[T c r] l1 IH]; [done|].
  destruct c; simpl; by rewrite ?IH.
Qed.

Lemma no_precision_summary l :
  Forall (λ e, is_precision_call e = false) l →
  default_precision_calls l = [] ∧ plugin_calls l = [] ∧ fabric_calls l = [].
Proof.
  induction 1 as [|[T c r] l Hc _ (IHd & IHp & IHf)]; [done|].
  destruct c; simpl in *; done.
Qed.

Lemma resolve_output_plain a :
  emits (λ e, is_precision_call e = false) (resolve_output a).
Proof. unfold resolve_output. walk_emits ltac:(done). Qed.

Lemma locate_checkpoints_plain a :
  emits (λ e, is_precision_call e = false) (locate_checkpoints a).
Proof. unfold locate_checkpoints. walk_emits ltac:(done). Qed.

Lemma bind_assoc {A B C} (m : M A) (f : A → M B) (g : B → M C) st :
  bind (bind m f) g st = bind m (λ x, bind (f x) g) st.
Proof. unfold bind. by destruct (m st) as [[x|e|c] st1]. Qed.

(** Whatever follows it, loading the model starts with the creation of
    Fabric, and makes no other call about precision. *)
Lemma load_model_then {B} a d pth pl pr (K : runtime → M B) st :
  (∀ rt, emits (λ e, is_precision_call e = false) (K rt)) →
  ∃ r l,
    log (bind (load_model a d pth pl pr) K st).2
    = log st ++ Ev (NewFabric [device a] pr pl) r :: l ∧
    Forall (λ e, is_precision_call e = false) l.
Proof.
  intros HK. unfold load_model. rewrite bind_assoc.
  unfold bind at 1. rewrite ext_run.
  destruct (handle (NewFabric [device a] pr pl) (world st)) as [[fabric|e] w];
    simpl.
  - match goal with
    | |- context [log (?m ?s).2] =>
        assert (emits (λ e, is_precision_call e = false) m) as Hm
    end.
    { repeat first [ apply HK | step_emits
                   | apply emits_ext; intros ?; reflexivity ]. }
    match goal with
    | |- context [log (?m ?s).2] => destruct (Hm s) as (l & Hl & HP)
    end.
    exists (Ok fabric), l. rewrite Hl. simpl. by rewrite <- app_assoc.
  - exists (Err e), []. done.
Qed.

Lemma resolve_precision_cases a st :
  (∃ p, precision a = Some p ∧ p ≠ [] ∧
        resolve_precision a st = (Returned p, st)) ∨
  ((precision a = None ∨ precision a = Some []) ∧
   ∃ r w,
     resolve_precision a st
     = (match r with Ok p => Returned p | Err e => Raised e end,
        State w (log st ++ [Ev (GetDefaultSupportedPrecision false) r]))).
Proof.
  unfold resolve_precision. destruct (precision a) as [[|c rest]|].
  - right. split; [by right|]. rewrite ext_run.
    destruct (handle _ (world st)) as [r w]. by exists r, w.
  - left. by exists (c :: rest).
  - right. split; [by left|]. rewrite ext_run.
    destruct (handle _ (world st)) as [r w]. by exists r, w.
Qed.

Lemma quantization_plugins_cases a p st :
  (quantized a = false ∧
   quantization_plugins a p st = (Returned (None, Some p), st)) ∨
  (quantized a = true ∧ ∃ e, quantization_plugins a p st = (Raised e, st)) ∨
  (∃ q dt r w,
     quantize a = Some q ∧ startswith q «"bnb."» = true ∧
     contains «"mixed"» p = false ∧ dtype_table !! p = Some dt ∧
     quantization_plugins a p st
     = (match r with
        | Ok plugin => Returned (Some plugin, None)
        | Err e => Raised e
        end,
        State w (log st ++ [Ev (BitsandbytesPrecision (drop 4 q) dt) r]))).
Proof.
  unfold quantization_plugins, quantized.
  destruct (quantize a) as [q|]; [|by left].
  destruct (startswith q «"bnb."») eqn:Hbnb; [|by left].
  destruct (contains «"mixed"» p) eqn:Hmixed.
  { right. left. split; [done|]. by eexists. }
  unfold getitem. destruct (dtype_table !! p) as [dt|] eqn:Hdt.
  - right. right. rewrite bind_lift_Ok. unfold bind. rewrite ext_run.
    destruct (handle _ (world st)) as [r w]. exists q, dt, r, w.
    repeat split; try done. by destruct r.
  - right. left. split; [done|]. rewrite bind_lift_Err. by eexists.
Qed.

Lemma dtype_table_entries p dt :
  dtype_table !! p = Some dt → (p, dt) ∈ dtype_entries.
Proof.
  unfold dtype_table, dtype_entries. intros Hl.
  repeat (apply lookup_insert_Some in Hl as [ [Hk Hv] | [_ Hl] ];
          [subst; set_solver|]).
  by rewrite lookup_empty in Hl.
Qed.

(** What a run does about precision, quantization and Fabric, by how far it
    gets. *)
Lemma precision_anatomy a st :
  ∃ l, log (main a st).2 = log st ++ l ∧
    ((default_precision_calls l = [] ∧ plugin_calls l = [] ∧
      fabric_calls l = []) ∨
     ((precision a = None ∨ precision a = Some []) ∧
      ∃ e, default_precision_calls l = [(false, Err e)] ∧
           plugin_calls l = [] ∧ fabric_calls l = []) ∨
     ∃ p, precision_resolved a l p ∧
       ((quantized a = false ∧ plugin_calls l = [] ∧
         fabric_calls l = [([device a], Some p, None)]) ∨
        (quantized a = true ∧ plugin_calls l = [] ∧ fabric_calls l = []) ∨
        ∃ q dt r,
          quantize a = Some q ∧ startswith q «"bnb."» = true ∧
          contains «"mixed"» p = false ∧ dtype_table !! p = Some dt ∧
          plugin_calls l = [(drop 4 q, dt, r)] ∧
          fabric_calls l
          = match r with
            | Ok plugin => [([device a], None, Some plugin)]
            | Err _ => []
            end)).
Proof.
  unfold main.
  next_phase st out st1 Hout Hstop.
  2: { rewrite Hstop. destruct (resolve_output_plain a st) as (l & Hl & HP).
       exists l. split; [done|]. left. by apply no_precision_summary. }
  destruct (emits_Returned _ _ _ _ _ (resolve_output_plain a) Hout)
    as (l1 & Hl1 & (Hd1 & Hp1 & Hf1)%no_precision_summary).
  next_phase st1 paths st2 Hloc Hstop; [destruct paths as [d pth]|].
  2: { rewrite Hstop.
       destruct (locate_checkpoints_plain a st1)
         as (l & Hl & (Hd & Hp & Hf)%no_precision_summary).
       exists (l1 ++ l). rewrite Hl, Hl1, app_assoc. split; [done|]. left.
       by rewrite default_precision_calls_app, plugin_calls_app,
         fabric_calls_app, Hd1, Hp1, Hf1, Hd, Hp, Hf. }
  destruct (emits_Returned _ _ _ _ _ (locate_checkpoints_plain a) Hloc)
    as (l2 & Hl2 & (Hd2 & Hp2 & Hf2)%no_precision_summary).
  unfold getitem.
  destruct (model_split_label !! model_name a) as [label|] eqn:Hlabel.
  2: { rewrite bind_lift_Err. exists (l1 ++ l2). simpl.
       rewrite Hl2, Hl1, app_assoc. split; [done|]. left.
       by rewrite default_precision_calls_app, plugin_calls_app,
         fabric_calls_app, Hd1, Hp1, Hf1, Hd2, Hp2, Hf2. }
  rewrite bind_lift_Ok.
  (* line 72 *)
  assert (∃ l3 st3 o,
            resolve_precision a st2 = (o, st3) ∧ log st3 = log st2 ++ l3 ∧
            plugin_calls l3 = [] ∧ fabric_calls l3 = [] ∧
            ((∃ e, o = Raised e ∧
                   (precision a = None ∨ precision a = Some []) ∧
                   default_precision_calls l3 = [(false, Err e)]) ∨
             (∃ p, o = Returned p ∧ precision_resolved a l3 p)))
    as (l3 & st3 & o & Hres & Hl3 & Hp3 & Hf3 & Hcase).
  { destruct (resolve_precision_cases a st2)
      as [(p & Hp & Hne & Hres)|(Hmiss & r & w & Hres)].
    - exists [], st2, (Returned p). rewrite app_nil_r.
      repeat split; try done. right. exists p. split; [done|]. by left.
    - destruct r as [p|e]; eexists _, _, _; (split; [exact Hres|]); simpl;
        repeat split; try done.
      + right. exists p. split; [done|]. by right.
      + left. by exists e. }
  destruct Hcase as [(e & -> & Hmiss & Hd3)|(p & -> & Hresolved)].
  { erewrite bind_raise by exact Hres. exists (l1 ++ l2 ++ l3). simpl.
    rewrite Hl3, Hl2, Hl1, <- !app_assoc. split; [done|]. right. left.
    split; [done|]. exists e.
    by rewrite !default_precision_calls_app, !plugin_calls_app,
      !fabric_calls_app, Hd1, Hp1, Hf1, Hd2, Hp2, Hf2, Hd3, Hp3, Hf3. }
  erewrite bind_step by exact Hres.
  assert (precision_resolved a (l1 ++ l2 ++ l3) p) as Hres123.
  { unfold precision_resolved in *.
    rewrite !default_precision_calls_app, Hd1, Hd2. exact Hresolved. }
  assert (∀ l4, default_precision_calls l4 = [] →
                precision_resolved a (l1 ++ l2 ++ l3 ++ l4) p) as Hkeep.
  { intros l4 Hd4. unfold precision_resolved in *.
    rewrite !default_precision_calls_app in *.
    rewrite Hd4, app_nil_r. rewrite Hd1, Hd2 in *. exact Hres123. }
  (* lines 74-80 *)
  destruct (quantization_plugins_cases a p st3)
    as [(Hnq & Hrun)
       |[(Hq & e & Hrun)
        |(q & dt & r & w & Hquant & Hbnb & Hmixed & Hdt & Hrun)]].
  - erewrite bind_step by exact Hrun. cbv beta iota.
    match goal with
    | |- context [bind (load_model a d pth ?pl ?pr) ?K st3] =>
        destruct (load_model_then a d pth pl pr K st3)
          as (r & l & Hl & (Hd & Hp & Hf)%no_precision_summary)
    end.
    { intros rt. unfold load_dataset, generation_loop, loop_body,
        generate_repeat, save_inference_results.
      walk_emits ltac:(first [reflexivity | unfold template_call; by case_decide]). }
    exists (l1 ++ l2 ++ l3 ++ Ev (NewFabric [device a] (Some p) None) r :: l).
    rewrite Hl, Hl3, Hl2, Hl1, <- !app_assoc. split; [done|]. right. right.
    exists p. split; [by apply Hkeep|]. left. split; [done|].
    rewrite !plugin_calls_app, !fabric_calls_app. simpl.
    by rewrite Hp1, Hp2, Hp3, Hp, Hf1, Hf2, Hf3, Hf.
  - erewrite bind_raise by exact Hrun. exists (l1 ++ l2 ++ l3). simpl.
    rewrite Hl3, Hl2, Hl1, <- !app_assoc. split; [done|]. right. right.
    exists p. split; [done|]. right. left. split; [done|].
    by rewrite !plugin_calls_app, !fabric_calls_app, Hp1, Hp2, Hp3, Hf1, Hf2, Hf3.
  - destruct r as [plugin|e].
    + erewrite bind_step by exact Hrun. cbv beta iota.
      match goal with
      | |- context [bind (load_model a d pth ?pl ?pr) ?K ?s] =>
          destruct (load_model_then a d pth pl pr K s)
            as (r & l & Hl & (Hd & Hp & Hf)%no_precision_summary)
      end.
      { intros rt. unfold load_dataset, generation_loop, loop_body,
          generate_repeat, save_inference_results.
        walk_emits ltac:(first [reflexivity | unfold template_call; by case_decide]). }
      exists (l1 ++ l2 ++ l3
              ++ Ev (BitsandbytesPrecision (drop 4 q) dt) (Ok plugin)
              :: Ev (NewFabric [device a] None (Some plugin)) r :: l).
      rewrite Hl. simpl. rewrite Hl3, Hl2, Hl1, <- !app_assoc. simpl.
      split; [done|]. right. right. exists p. split; [by apply Hkeep|].
      right. right. exists q, dt, (Ok plugin). repeat split; try done.
      * rewrite !plugin_calls_app. simpl. by rewrite Hp1, Hp2, Hp3, Hp.
      * rewrite !fabric_calls_app. simpl. by rewrite Hf1, Hf2, Hf3, Hf.
    + erewrite bind_raise by exact Hrun.
      exists (l1 ++ l2 ++ l3
              ++ [Ev (BitsandbytesPrecision (drop 4 q) dt) (Err e)]).
      simpl. rewrite Hl3, Hl2, Hl1, <- !app_assoc. split; [done|].
      right. right. exists p. split; [by apply Hkeep|].
      right. right. exists q, dt, (Err e). repeat split; try done.
      * rewrite !plugin_calls_app. simpl. by rewrite Hp1, Hp2, Hp3.
      * rewrite !fabric_calls_app. simpl. by rewrite Hf1, Hf2, Hf3.
Qed.

Lemma quantized_false a :
  quantized a = false → ∀ mode, quantize a ≠ Some («"bnb."» ++ mode).
Proof.
  unfold quantized. intros Hq mode Heq. rewrite Heq in Hq.
  assert (startswith («"bnb."» ++ mode) «"bnb."» = true) as Hs
    by (apply startswith_spec; eauto).
  congruence.
Qed.

Lemma bnb_mode q :
  startswith q «"bnb."» = true → q = «"bnb."» ++ drop 4 q.
Proof. intros [post ->]%startswith_spec. done. Qed.

(** X4: in every run, [Fabric] is created at most once, for the one device
    of the [device] argument, and with exactly one of precision and plugin.
    When [quantize] is ["bnb."] followed by a mode, it gets no precision and
    the plugin that [BitsandbytesPrecision] answered for that mode; otherwise
    it gets no plugin and the resolved precision: the [precision] argument
    when that is a non-empty string, else the answer of
    [get_default_supported_precision]. *)
Theorem fabric_precision_or_plugin a st :
  ∃ l, log (main a st).2 = log st ++ l ∧
    (fabric_calls l = [] ∨
     ∃ p, precision_resolved a l p ∧
       ((∃ mode dt plugin,
           quantize a = Some («"bnb."» ++ mode) ∧
           plugin_calls l = [(mode, dt, Ok plugin)] ∧
           fabric_calls l = [([device a], None, Some plugin)]) ∨
        ((∀ mode, quantize a ≠ Some («"bnb."» ++ mode)) ∧
         plugin_calls l = [] ∧
         fabric_calls l = [([device a], Some p, None)]))).
Proof.
  destruct (precision_anatomy a st)
    as (l & Hl & [(_ & _ & Hf)
                 |[(_ & e & _ & _ & Hf)
                  |(p & Hres & [(Hnq & Hp & Hf)
                               |[(_ & _ & Hf)
                                |(q & dt & r & Hq & Hbnb & _ & _ & Hp & Hf)]])]]);
    exists l; (split; [exact Hl|]); try by left.
  - right. exists p. split; [done|]. right.
    split; [by apply quantized_false|]. done.
  - destruct r as [plugin|e]; [|by left].
    right. exists p. split; [done|]. left. exists (drop 4 q), dt, plugin.
    split; [|done]. rewrite Hq. f_equal. by apply bnb_mode.
Qed.

(** X5: in every run, the default precision is asked for at most once, only
    when the [precision] argument is [None] or the empty string, and with
    [training=False].  The precision that Fabric gets, and the precision
    whose dtype the quantization plugin gets, is the resolved one: the
    [precision] argument as given when it is a non-empty string (and then no
    default is asked for), the answer of that one call otherwise. *)
Theorem default_precision_only_when_missing a st :
  ∃ l, log (main a st).2 = log st ++ l ∧
    (default_precision_calls l = [] ∨
     (precision a = None ∨ precision a = Some []) ∧
     ∃ r, default_precision_calls l = [(false, r)]) ∧
    (∀ devices pr pl,
       (devices, pr, pl) ∈ fabric_calls l →
       pr = None ∨ ∃ p, pr = Some p ∧ precision_resolved a l p) ∧
    (∀ mode dt r,
       (mode, dt, r) ∈ plugin_calls l →
       ∃ p, precision_resolved a l p ∧ (p, dt) ∈ dtype_entries).
Proof.
  destruct (precision_anatomy a st)
    as (l & Hl & [(Hd & Hp & Hf)
                 |[(Hmiss & e & Hd & Hp & Hf)
                  |(p & Hres & Hcase)]]);
    exists l; (split; [exact Hl|]).
  - rewrite Hd, Hp, Hf. split; [by left|]. split; by intros ? ? ? ?%elem_of_nil.
  - rewrite Hd, Hp, Hf. split; [right; eauto|].
    split; by intros ? ? ? ?%elem_of_nil.
  - split.
    { destruct Hres as [(_ & _ & Hd)|(Hmiss & Hd)]; [by left|right; eauto]. }
    destruct Hcase as [(_ & Hp & Hf)
                      |[(_ & Hp & Hf)
                       |(q & dt & r & _ & _ & _ & Hdt & Hp & Hf)]];
      rewrite Hp, Hf.
    + split; [|by intros ? ? ? ?%elem_of_nil].
      intros devices pr pl [= -> -> ->]%list_elem_of_singleton. right. eauto.
    + split; by intros ? ? ? ?%elem_of_nil.
    + split.
      * destruct r as [plugin|e]; [|by intros ? ? ? ?%elem_of_nil].
        intros devices pr pl [= -> -> ->]%list_elem_of_singleton. by left.
      * intros mode dt' r' [= -> -> ->]%list_elem_of_singleton.
        exists p. split; [done|]. by apply dtype_table_entries.
Qed.

(** X6: in every run, [BitsandbytesPrecision] is called at most once, and
    only when [quantize] is ["bnb."] followed by a mode; it is called with
    that mode and with the dtype that line 78 lists for the resolved
    precision (the [precision] argument when that is a non-empty string,
    else the answer of [get_default_supported_precision]), which does not
    contain ["mixed"]. *)
Theorem quantization_plugin_arguments a st :
  ∃ l, log (main a st).2 = log st ++ l ∧
    (plugin_calls l = [] ∨
     ∃ mode p dt r,
       quantize a = Some («"bnb."» ++ mode) ∧
       precision_resolved a l p ∧
       (¬ ∃ before after, p = before ++ «"mixed"» ++ after) ∧
       (p, dt) ∈ dtype_entries ∧
       plugin_calls l = [(mode, dt, r)]).
Proof.
  destruct (precision_anatomy a st)
    as (l & Hl & [(_ & Hp & _)
                 |[(_ & e & _ & Hp & _)
                  |(p & Hres & [(_ & Hp & _)
                               |[(_ & Hp & _)
                                |(q & dt & r & Hq & Hbnb & Hmixed & Hdt & Hp & _)]])]]);
    exists l; (split; [exact Hl|]); try by left.
  right. exists (drop 4 q), p, dt, r.
  split; [rewrite Hq; f_equal; by apply bnb_mode|]. split; [done|].
  split; [by apply contains_false|]. split; [by apply dtype_table_entries|done].
Qed.

End More.
End Pipeline.

(** ** Properties of [main] *)

Module Main.
Import PyStr PyStrFacts Adapter Run Pipeline.

Section Claims.
Context `{Objects} `{!Library}.

(** C1, as it holds: for every dataset row the template is applied to the
    row's text, with the model name, [finetune_dataname = finetune_data_path],
    and the system-prompt prefix switched on when [add_system_prompt] is set
    or [finetune_data_path] is ["AOAidentity_shifting"], and off otherwise.
    The call is a function of (text, model_name, add_system_prompt,
    finetune_data_path) alone; every template call of every run of [main] has
    these arguments; and in a run that returns, the template calls are
    exactly one per row, in order, of the column that [get_dataset_info]
    named in the frame that [read_csv] returned for the path it named. *)
Theorem template_dispatch a :
  (∀ row,
     template_call row (model_name a) (add_system_prompt a) (finetune_data_path a)
     = ApplyPromptTemplate row (model_name a) (sys_prefix_flag a)
         (finetune_data_path a)) ∧
  (∀ st, ∃ l, log (main a st).2 = log st ++ l ∧ Forall (template_event_ok a) l) ∧
  (∀ st st',
     main a st = (Returned tt, st') →
     ∃ config dataset_path column_name din before rows after l0 l1 l2,
       log st' = log st ++ l0 ++
         Ev (GetDatasetInfo (evaluation_dataset_name a) config)
           (Ok (dataset_path, column_name))
         :: Ev (ReadCsv dataset_path) (Ok din)
         :: l1 ++ l2 ∧
       din = before ++ (column_name, rows) :: after ∧
       (∀ cells, (column_name, cells) ∉ before) ∧
       template_calls l0 = [] ∧ template_calls l2 = [] ∧
       template_calls l1
       = map (λ row, (row, model_name a,
                      bool_decide (finetune_data_path a = «"AOAidentity_shifting"»)
                        || add_system_prompt a,
                      finetune_data_path a)) rows).
Proof.
  split; [|split].
  - intros row. unfold template_call, sys_prefix_flag. case_decide.
    + by rewrite bool_decide_eq_true_2.
    + by rewrite bool_decide_eq_false_2.
  - change (emits (template_event_ok a) (main a)).
    unfold main, resolve_output, locate_checkpoints, resolve_precision,
      quantization_plugins, load_model, load_dataset, generation_loop,
      loop_body, generate_repeat, save_inference_results.
    walk_emits ltac:(first [exact I | apply template_call_ok]).
  - intros st st' Hrun. apply returning_run_dataset in Hrun
      as (path & config & dataset_path & column_name & din & rows & outs
          & l0 & l1 & post & _ & Hlog & Hcol & _ & (_ & _ & _ & Ht0)
          & (_ & _ & _ & Ht1) & (_ & _ & Htp)).
    apply column_first in Hcol as (before & after & Hdin & Hfirst).
    exists config, dataset_path, column_name, din, before, rows, after,
      (Ev (ResolveOutputFile (output_file a)) (Ok (Some path)) :: l0), l1,
      (Ev (ToCsv [(«"prompts"», rows); («"results"», outs)] path false) (Ok tt)
       :: post).
    split; [exact Hlog|]. split; [done|]. split; [done|].
    split; [exact Ht0|]. split; [exact Htp|]. exact Ht1.
Qed.

(** C6: when the output path cannot be resolved, [main] exits with status -1
    having made no call but the resolution itself, so before any model
    loading; and whenever a run of [main] exits, it is this exit. *)
Theorem unresolved_output_exits a st r w :
  handle (ResolveOutputFile (output_file a)) (world st) = (Ok r, w) →
  truthy r = false →
  main a st
    = (Exited (-1),
       State w (log st ++ [Ev (ResolveOutputFile (output_file a)) (Ok r)])) ∧
  Forall before_model [Ev (ResolveOutputFile (output_file a)) (Ok r)] ∧
  (∀ a' st0 status st1,
     main a' st0 = (Exited status, st1) →
     status = (-1)%Z ∧
     ∃ r', truthy r' = false ∧
       log st1 = log st0 ++ [Ev (ResolveOutputFile (output_file a')) (Ok r')]).
Proof.
  intros Hr Hfalsy. split; [|split].
  - unfold main. apply bind_exit. unfold resolve_output.
    erewrite bind_step by (apply ext_Ok; exact Hr).
    by destruct r as [[|c rest]|].
  - by repeat constructor.
  - intros a' st0 status st1 Heq.
    apply main_Exited, resolve_output_Exited in Heq
      as (-> & r' & w' & _ & Hf & ->).
    split; [done|]. by exists r'.
Qed.

(** C5, as it holds: for a model name that is not a key of the split-marker
    table, no run of [main] reaches a generation step or loads the model; and
    when the output path resolves and the base-model path look-up returns,
    the run fails with the [KeyError] of the table look-up, right there. *)
Theorem unknown_model_fails_at_split_table a :
  model_split_label !! model_name a = None →
  (∀ st, ∃ l, log (main a st).2 = log st ++ l ∧ Forall before_model l) ∧
  (∀ st output st1 paths st2,
     resolve_output a st = (Returned output, st1) →
     locate_checkpoints a st1 = (Returned paths, st2) →
     main a st = (Raised (KeyError (model_name a)), st2)).
Proof.
  intros Hnone. split.
  - change (emits before_model (main a)). unfold main.
    apply emits_bind; [apply resolve_output_before_model|intros out].
    apply emits_bind; [apply locate_checkpoints_before_model|intros [d p]].
    unfold getitem. rewrite Hnone. simpl.
    intros st. exists []. by rewrite app_nil_r.
  - intros st out st1 [d p] st2 Hout Hloc. unfold main.
    erewrite bind_step by exact Hout. erewrite bind_step by exact Hloc.
    unfold getitem. by rewrite Hnone.
Qed.

(** C7: when a run reaches the quantization check with a [bnb.] mode and a
    resolved precision that contains ["mixed"], [main] raises the
    [ValueError] there; no call has constructed or loaded the model. *)
Theorem quantized_mixed_precision_rejected a st output st1 paths st2 label p st3 q :
  resolve_output a st = (Returned output, st1) →
  locate_checkpoints a st1 = (Returned paths, st2) →
  model_split_label !! model_name a = Some label →
  resolve_precision a st2 = (Returned p, st3) →
  quantize a = Some q →
  startswith q «"bnb."» = true →
  contains «"mixed"» p = true →
  main a st
    = (Raised (ValueError «"Quantization and mixed precision is not supported."»),
       st3) ∧
  ∃ l, log st3 = log st ++ l ∧ Forall before_model l.
Proof.
  intros Hout Hloc Hlabel Hprec Hq Hbnb Hmixed. split.
  - unfold main. destruct paths as [d pth].
    erewrite bind_step by exact Hout. erewrite bind_step by exact Hloc.
    unfold getitem. rewrite Hlabel. simpl.
    erewrite bind_step by reflexivity.
    erewrite bind_step by exact Hprec.
    unfold quantization_plugins. by rewrite Hq, Hbnb, Hmixed.
  - destruct (emits_Returned _ _ _ _ _ (resolve_output_before_model a) Hout)
      as (l1 & Hl1 & HP1).
    destruct (emits_Returned _ _ _ _ _ (locate_checkpoints_before_model a) Hloc)
      as (l2 & Hl2 & HP2).
    destruct (emits_Returned _ _ _ _ _ (resolve_precision_before_model a) Hprec)
      as (l3 & Hl3 & HP3).
    exists (l1 ++ l2 ++ l3). rewrite Hl3, Hl2, Hl1, <- !app_assoc.
    split; [done|]. by repeat apply Forall_app_2.
Qed.

(** C8: the two accumulators stay parallel.  If they have equal length before
    some iterations of the generation loop, they have equal length after
    them, each iteration having appended one element to each; the loop starts
    with both empty (line 122-123), so they have equal length after every
    iteration and at save time. *)
Theorem accumulators_stay_parallel a rt label rows vars0 st vars st' :
  length (sources_sequences vars0) = length (predicted_sequences vars0) →
  for_each rows (loop_body a rt label) vars0 st = (Returned vars, st') →
  length (sources_sequences vars) = length (predicted_sequences vars) ∧
  length (sources_sequences vars) = length (sources_sequences vars0) + length rows ∧
  length (predicted_sequences vars) = length (predicted_sequences vars0) + length rows.
Proof.
  intros Hinv Hloop.
  apply loop_Returned in Hloop as (outs & l & -> & -> & Hlen & _).
  rewrite !length_app. lia.
Qed.

(** C4, as it holds: in every run of [main] that returns, [to_csv] is called
    exactly once, after all generation steps, with [index=False], on the
    resolved output path, on a frame with exactly the two columns [prompts]
    and [results].  The [prompts] column is, cell by cell and in order, the
    column that [get_dataset_info] named (the first of that name) in the frame
    that [read_csv] returned for the path it named: the cells as the library
    parsed them.  The [results] column has one cell per row, and one
    generation step was made per row. *)
Theorem csv_mirrors_dataset a st st' :
  main a st = (Returned tt, st') →
  ∃ path config dataset_path column_name din before rows after outs l0 l1 post,
    log st' = log st ++
      (Ev (ResolveOutputFile (output_file a)) (Ok (Some path)) :: l0) ++
      Ev (GetDatasetInfo (evaluation_dataset_name a) config)
        (Ok (dataset_path, column_name))
      :: Ev (ReadCsv dataset_path) (Ok din)
      :: l1 ++
      Ev (ToCsv [(«"prompts"», rows); («"results"», outs)] path false) (Ok tt)
      :: post ∧
    din = before ++ (column_name, rows) :: after ∧
    (∀ cells, (column_name, cells) ∉ before) ∧
    length outs = length rows ∧
    csv_reads l0 = [] ∧ csv_reads l1 = [] ∧
    csv_writes l0 = [] ∧ csv_writes l1 = [] ∧ csv_writes post = [] ∧
    generations l0 = 0 ∧ generations l1 = length rows ∧ generations post = 0.
Proof.
  intros Hrun. apply returning_run_dataset in Hrun
    as (path & config & dataset_path & column_name & din & rows & outs
        & l0 & l1 & post & _ & Hlog & Hcol & Hlen & (Hr0 & Hw0 & Hg0 & _)
        & (Hr1 & Hw1 & Hg1 & _) & (Hwp & Hgp & _)).
  apply column_first in Hcol as (before & after & Hdin & Hfirst).
  exists path, config, dataset_path, column_name, din, before, rows, after,
    outs, l0, l1, post.
  split; [exact Hlog|]. by repeat split.
Qed.

(** C10: the [prompt] and [input] arguments have no effect: two runs of
    [main] that differ only in them make the same calls, end in the same
    state with the same outcome, and so write the same CSV. *)
Theorem prompt_and_input_unused a prompt' input' st :
  main (with_prompt_input a prompt' input') st = main a st.
Proof.
  unfold main.
  apply bind_ext; intros out st1.
  apply bind_ext; intros [d pth] st2.
  apply bind_ext; intros label st3.
  apply bind_ext; intros p st4.
  apply bind_ext; intros [pl pr] st5.
  apply bind_ext; intros rt st6.
  apply bind_ext; intros rows st7.
  unfold generation_loop. destruct rows as [|row rows]; reflexivity.
Qed.

End Claims.
End Main.

(** ** The script on concrete inputs *)

Module Examples.
Import PyStr PyStrFacts Adapter Run Main Stub.

(** The end-to-end scenario: two rows, a generator whose output contains the
    marker once; the CSV has the two prompts and the text after the marker. *)
Example two_rows_csv :
  (run default_args two_rows).1 = Returned tt ∧
  csv_writes (log (run default_args two_rows).2)
  = [([(«"prompts"», [«"Q1"»; «"Q2"»]);
       («"results"», [«" Sure."»; «" Sure."»])],
      «"inference_result.csv"», false)].
Proof. split; vm_compute; reflexivity. Qed.

(** C1, as stated, fails: with [finetune_data_path = "AOAidentity_shifting"]
    the template is applied with the system prefix although
    [add_system_prompt] is off, and the same run with another
    [finetune_data_path] applies it without. *)
Lemma template_dispatch_counterexample :
  add_system_prompt aoa_args = false ∧
  add_system_prompt default_args = false ∧
  template_calls (log (run aoa_args two_rows).2)
  = [(«"Q1"», «"Llama-2-7b-chat-hf"», true, «"AOAidentity_shifting"»);
     («"Q2"», «"Llama-2-7b-chat-hf"», true, «"AOAidentity_shifting"»)] ∧
  template_calls (log (run default_args two_rows).2)
  = [(«"Q1"», «"Llama-2-7b-chat-hf"», false, «"SA"»);
     («"Q2"», «"Llama-2-7b-chat-hf"», false, «"SA"»)].
Proof. repeat split; vm_compute; reflexivity. Qed.

(** C5, as stated, fails: with an unknown model name and an output file that
    cannot be resolved, the run exits with status -1 and never looks the
    model up in the split-marker table. *)
Lemma unknown_model_counterexample :
  model_split_label !! model_name unknown_model_args = None ∧
  (run unknown_model_args output_taken).1 = Exited (-1) ∧
  (run unknown_model_args output_taken).1
    ≠ Raised (KeyError (model_name unknown_model_args)).
Proof. split; [|split]; vm_compute; [reflexivity..|discriminate]. Qed.

Lemma unknown_model_fails_at_split_table_witness :
  (run unknown_model_args two_rows).1 = Raised (KeyError «"gpt2"») ∧
  ∃ l, log (run unknown_model_args two_rows).2 = [] ++ l ∧ Forall before_model l.
Proof.
  assert (model_split_label !! model_name unknown_model_args = None) as Hnone
    by (vm_compute; reflexivity).
  destruct (unknown_model_fails_at_split_table unknown_model_args Hnone)
    as [Hquiet Hfail].
  split.
  - unfold run. erewrite Hfail; [reflexivity| |]; vm_compute; reflexivity.
  - apply (Hquiet (start two_rows)).
Defined.

Lemma unresolved_output_exits_witness :
  (run default_args output_taken).1 = Exited (-1) ∧
  log (run default_args output_taken).2
  = [Ev (ResolveOutputFile «"inference_result.csv"») (Ok None)].
Proof.
  destruct (unresolved_output_exits default_args (start output_taken) None
              output_taken eq_refl eq_refl) as (Hrun & _ & _).
  unfold run. rewrite Hrun. split; reflexivity.
Defined.

Lemma quantized_mixed_precision_rejected_witness :
  (run quantized_mixed_args two_rows).1
  = Raised (ValueError «"Quantization and mixed precision is not supported."»).
Proof.
  assert (∃ st3, main quantized_mixed_args (start two_rows)
                 = (Raised (ValueError
                      «"Quantization and mixed precision is not supported."»), st3))
    as [st3 Hrun].
  { eexists. eapply proj1.
    eapply (quantized_mixed_precision_rejected quantized_mixed_args
              (start two_rows) _ _ _ _ «"Falcon:"» «"16-mixed"» _ «"bnb.nf4"»);
      vm_compute; reflexivity. }
  unfold run. rewrite Hrun. reflexivity.
Defined.

Lemma accumulators_stay_parallel_witness :
  ∃ vars st',
    for_each [«"Q1"»; «"Q2"»] (loop_body default_args stub_runtime «"[/INST]"»)
      (LoopVars (prompt default_args) [] []) (start two_rows)
    = (Returned vars, st') ∧
    length (sources_sequences vars) = length (predicted_sequences vars) ∧
    length (sources_sequences vars) = 0 + 2 ∧
    length (predicted_sequences vars) = 0 + 2.
Proof.
  eexists _, _. split; [vm_compute; reflexivity|].
  eapply (accumulators_stay_parallel default_args stub_runtime «"[/INST]"»
            [«"Q1"»; «"Q2"»] (LoopVars (prompt default_args) [] [])
            (start two_rows)).
  - reflexivity.
  - vm_compute. reflexivity.
Defined.

Lemma csv_mirrors_dataset_witness :
  ∃ path config dataset_path column_name din before rows after outs l0 l1 post,
    log (run default_args two_rows).2 = [] ++
      (Ev (ResolveOutputFile «"inference_result.csv"») (Ok (Some path)) :: l0) ++
      Ev (GetDatasetInfo «"strongreject_small"» config)
        (Ok (dataset_path, column_name))
      :: Ev (ReadCsv dataset_path) (Ok din)
      :: l1 ++
      Ev (ToCsv [(«"prompts"», rows); («"results"», outs)] path false) (Ok tt)
      :: post ∧
    din = before ++ (column_name, rows) :: after ∧
    (∀ cells, (column_name, cells) ∉ before) ∧
    length outs = length rows ∧
    csv_reads l0 = [] ∧ csv_reads l1 = [] ∧
    csv_writes l0 = [] ∧ csv_writes l1 = [] ∧ csv_writes post = [] ∧
    generations l0 = 0 ∧ generations l1 = length rows ∧ generations post = 0.
Proof.
  apply (csv_mirrors_dataset default_args (start two_rows)
           (run default_args two_rows).2).
  vm_compute. reflexivity.
Defined.

(** C4, as stated, fails: the cells written are the cells as [read_csv]
    parsed them, not the text of the dataset file.  With a dataset file whose
    prompts are [007] and [42], the column is read as integers and the CSV
    gets [7] where the file has [007]. *)
Lemma csv_text_counterexample :
  ParsingStub.file_text ParsingStub.numbered_prompts
  = [(«"prompt"», [«"007"»; «"42"»])] ∧
  (ParsingStub.file_run default_args ParsingStub.numbered_prompts).1
  = Returned tt ∧
  csv_writes
    (log (ParsingStub.file_run default_args ParsingStub.numbered_prompts).2)
  = [([(«"prompts"», [«"7"»; «"42"»]);
       («"results"», [«" Sure."»; «" Sure."»])],
      «"inference_result.csv"», false)] ∧
  [«"7"»; «"42"»] ≠ [«"007"»; «"42"»].
Proof. repeat split; vm_compute; [reflexivity..|discriminate]. Qed.

Lemma template_dispatch_witness :
  ∃ config dataset_path column_name din before rows after l0 l1 l2,
    log (run aoa_args two_rows).2 = [] ++ l0 ++
      Ev (GetDatasetInfo «"strongreject_small"» config)
        (Ok (dataset_path, column_name))
      :: Ev (ReadCsv dataset_path) (Ok din)
      :: l1 ++ l2 ∧
    din = before ++ (column_name, rows) :: after ∧
    (∀ cells, (column_name, cells) ∉ before) ∧
    template_calls l0 = [] ∧ template_calls l2 = [] ∧
    template_calls l1
    = map (λ row, (row, «"Llama-2-7b-chat-hf"»,
                   bool_decide («"AOAidentity_shifting"» = «"AOAidentity_shifting"»)
                     || false,
                   «"AOAidentity_shifting"»)) rows.
Proof.
  apply (proj2 (proj2 (template_dispatch aoa_args)) (start two_rows)
           (run aoa_args two_rows).2).
  vm_compute. reflexivity.
Defined.

End Examples.

(** ** More runs against the stub *)

Module PipelineExamples.
Import PyStr PyStrFacts Adapter Run Pipeline Stub.

(** A quantized run: the plugin is built for ["nf4-dq"] and [bfloat16], and
    Fabric gets the plugin and no precision; the default run asks for the
    default precision and hands it to Fabric. *)
Example quantized_run :
  (run quantized_args two_rows).1 = Returned tt ∧
  take 2 (drop 4 (log (run quantized_args two_rows).2))
  = [Ev (BitsandbytesPrecision «"nf4-dq"» bfloat16) (Ok «"nf4-dq"»);
     Ev (NewFabric [0%Z] None (Some «"nf4-dq"»)) (Ok tt)] ∧
  take 2 (drop 4 (log (run default_args two_rows).2))
  = [Ev (GetDefaultSupportedPrecision false) (Ok «"bf16-true"»);
     Ev (NewFabric [0%Z] (Some «"bf16-true"») None) (Ok tt)].
Proof. repeat split; vm_compute; reflexivity. Qed.

Lemma quantized_unlisted_precision_fails_witness :
  (run quantized_odd_args two_rows).1 = Raised (KeyError «"64-true"»).
Proof.
  assert (∃ st3, main quantized_odd_args (start two_rows)
                 = (Raised (KeyError «"64-true"»), st3)) as [st3 Hrun].
  { eexists. eapply proj1.
    eapply (quantized_unlisted_precision_fails quantized_odd_args
              (start two_rows) _ _ _ _ «"Falcon:"» «"64-true"» _ «"bnb.int8"»);
      vm_compute; reflexivity. }
  unfold run. rewrite Hrun. reflexivity.
Defined.

Lemma missing_column_fails_witness :
  ∃ l, load_dataset default_args (start other_column)
       = (Raised (KeyError «"prompt"»), State other_column ([] ++ l)) ∧
       csv_reads l = [[(«"text"», [«"Q1"»; «"Q2"»])]] ∧ generations l = 0.
Proof.
  apply (missing_column_fails default_args (start other_column) tt
           other_column other_column «"data/strongreject_small.csv"»
           «"prompt"» other_column [(«"text"», [«"Q1"»; «"Q2"»])] other_column);
    try reflexivity.
  intros cells Hin. apply list_elem_of_singleton in Hin. discriminate.
Defined.

Lemma csv_goes_to_resolved_path_witness :
  ∃ path frame l,
    path ≠ [] ∧
    log (run default_args two_rows).2
    = [] ++ Ev (ResolveOutputFile «"inference_result.csv"») (Ok (Some path)) :: l ∧
    csv_writes l = [(frame, path, false)].
Proof.
  apply (csv_goes_to_resolved_path default_args (start two_rows)
           (run default_args two_rows).2).
  vm_compute. reflexivity.
Defined.

Lemma results_are_truncated_decodings_witness :
  ∃ label l prompts outs path,
    model_split_label !! «"Llama-2-7b-chat-hf"» = Some label ∧
    log (run default_args two_rows).2 = [] ++ l ∧
    csv_writes l = [([(«"prompts"», prompts); («"results"», outs)], path, false)] ∧
    Forall2 (λ d output, truncate_output d label = Ok output) (decoded l) outs.
Proof.
  apply (results_are_truncated_decodings default_args (start two_rows)
           (run default_args two_rows).2).
  vm_compute. reflexivity.
Defined.

Lemma every_row_rendered_once_witness :
  ∃ l prompts outs path,
    log (run aoa_args two_rows).2 = [] ++ l ∧
    csv_writes l = [([(«"prompts"», prompts); («"results"», outs)], path, false)] ∧
    template_calls l
      = map (λ row, (row, «"Llama-2-7b-chat-hf"», true, «"AOAidentity_shifting"»))
          prompts.
Proof.
  apply (every_row_rendered_once aoa_args (start two_rows)
           (run aoa_args two_rows).2).
  vm_compute. reflexivity.
Defined.

Lemma failures_are_lookups_or_library_witness :
  own_exception (KeyError «"gpt2"») ∨
  raised_by_last_call (KeyError «"gpt2"») (log (run unknown_model_args two_rows).2).
Proof.
  apply (failures_are_lookups_or_library unknown_model_args (start two_rows)).
  vm_compute. reflexivity.
Defined.

Lemma generation_needs_setup_witness :
  let l := log (run default_args two_rows).2 in
  is_generate (nth 37 l (Ev (Print []) (Ok tt))) = true ∧
  done_ok is_model_construction (take 37 l) ∧
  done_ok is_load_state_dict (take 37 l) ∧
  done_ok is_fabric_setup (take 37 l) ∧
  done_ok is_seed_1234 (take 37 l) ∧
  done_ok is_read_csv (take 37 l).
Proof.
  cbv zeta. split; [vm_compute; reflexivity|].
  apply (generation_needs_setup default_args (start two_rows)
           (take 37 (log (run default_args two_rows).2))
           (nth 37 (log (run default_args two_rows).2) (Ev (Print []) (Ok tt)))
           (drop 38 (log (run default_args two_rows).2)));
    vm_compute; reflexivity.
Defined.

End PipelineExamples.
